(** * helmper: registry synchronisation and patch-decision engine

    A shallow embedding of [pkg/registry/registry.go] (the registry client:
    [Push], [Fetch], [Exist], [Exists]) and of the patch-enabled branch of
    [internal.Program] (classification loop, artifact paths, scoped cleanup,
    rescan), followed by the properties the specification states about them.

    Conventions.
    - A Go result [(T, error)] of this repository's own functions is a pair
      whose second component is [option error] ([None] is [nil]); results of
      library calls, whose value is only meaningful when the error is [nil],
      are sums [error + T].
    - Calls that leave the process (registry transport, credential store,
      scanner, patcher, signer, file system) are parameters of the enclosing
      Section; effects that matter to a property are recorded as events.
    - Loop variables are per-iteration (Go 1.22): [&i] taken in iteration [k]
      is a fresh pointer, modelled by the index [k] together with the copy of
      the image it points to. *)

From Stdlib Require Import String Ascii List Bool Arith Lia.
From stdpp Require Import base option list gmap strings.

Local Open Scope string_scope.
Local Open Scope list_scope.

(** ** The functions of Go's [strings] package used by the source *)

Module strings.

(** [strings.Join(elems, sep)] *)
Definition Join (elems : list string) (sep : string) : string :=
  String.concat sep elems.

(** [strings.HasPrefix(s, prefix)] *)
Fixpoint HasPrefix (s prefix : string) {struct prefix} : bool :=
  match prefix with
  | EmptyString => true
  | String p prefix' =>
      match s with
      | EmptyString => false
      | String c s' => if Ascii.eqb c p then HasPrefix s' prefix' else false
      end
  end.

(** [strings.Contains(s, substr)]: [substr] occurs at some offset of [s]. *)
Fixpoint Contains (s substr : string) : bool :=
  if HasPrefix s substr then true
  else match s with
       | EmptyString => false
       | String _ s' => Contains s' substr
       end.

(** Left-to-right replacement of the non-overlapping occurrences of a
    non-empty [old]; [skip] counts the bytes of the occurrence just replaced
    that are still to be dropped. *)
Fixpoint replace_from (old new : string) (skip : nat) (s : string) : string :=
  match s with
  | EmptyString => EmptyString
  | String c s' =>
      match skip with
      | S k => replace_from old new k s'
      | O =>
          if HasPrefix s old
          then new +:+ replace_from old new (String.length old - 1) s'
          else String c (replace_from old new 0 s')
      end
  end.

(** [lo <= b <= hi] *)
Definition inRange (lo hi b : nat) : bool := Nat.leb lo b && Nat.leb b hi.

(** The width [utf8.DecodeRuneInString] gives to the first UTF-8 sequence
    of [s]: 1 for an ASCII byte and for an invalid or truncated sequence, 2
    to 4 for a valid multi-byte sequence, whose second byte has the range
    its first byte asks for. *)
Definition runeWidth (s : string) : nat :=
  match s with
  | EmptyString => 0
  | String c0 rest =>
      let b0 := nat_of_ascii c0 in
      if Nat.ltb b0 194 then 1
      else if Nat.leb b0 223 then
        match rest with
        | String c1 _ => if inRange 128 191 (nat_of_ascii c1) then 2 else 1
        | EmptyString => 1
        end
      else if Nat.leb b0 239 then
        match rest with
        | String c1 (String c2 _) =>
            if inRange (if Nat.eqb b0 224 then 160 else 128)
                       (if Nat.eqb b0 237 then 159 else 191) (nat_of_ascii c1)
               && inRange 128 191 (nat_of_ascii c2)
            then 3 else 1
        | _ => 1
        end
      else if Nat.leb b0 244 then
        match rest with
        | String c1 (String c2 (String c3 _)) =>
            if inRange (if Nat.eqb b0 240 then 144 else 128)
                       (if Nat.eqb b0 244 then 143 else 191) (nat_of_ascii c1)
               && inRange 128 191 (nat_of_ascii c2)
               && inRange 128 191 (nat_of_ascii c3)
            then 4 else 1
        | _ => 1
        end
      else 1
  end.

(** With an empty [old], Go inserts [new] at the start and after every
    UTF-8 sequence, at most [n] times; [skip] counts the bytes of the current
    sequence that are still to be copied. *)
Fixpoint intersperse_runes (new : string) (n skip : nat) (s : string) : string :=
  match s with
  | EmptyString =>
      match n with
      | O => EmptyString
      | S _ => new
      end
  | String c s' =>
      match skip with
      | S k => String c (intersperse_runes new n k s')
      | O =>
          match n with
          | O => s
          | S n' => new +:+ String c (intersperse_runes new n' (runeWidth s - 1) s')
          end
      end
  end.

(** No limit: a string has fewer sequences than bytes plus one. *)
Definition intersperse_all (new s : string) : string :=
  intersperse_runes new (S (String.length s)) 0 s.

(** [strings.ReplaceAll(s, old, new)] *)
Definition ReplaceAll (s old new : string) : string :=
  match old with
  | EmptyString => intersperse_all new s
  | String _ _ => replace_from old new 0 s
  end.

(** The first [n] non-overlapping occurrences of a non-empty [old], from
    the left. *)
Fixpoint replace_n (old new : string) (n skip : nat) (s : string) : string :=
  match s with
  | EmptyString => EmptyString
  | String c s' =>
      match skip with
      | S k => replace_n old new n k s'
      | O =>
          match n with
          | O => s
          | S n' =>
              if HasPrefix s old
              then new +:+ replace_n old new n' (String.length old - 1) s'
              else String c (replace_n old new n 0 s')
          end
      end
  end.

(** With an empty [old], at most [n] insertions. *)
Definition intersperse_n (new : string) (n : nat) (s : string) : string :=
  intersperse_runes new n 0 s.

(** [strings.Replace(s, old, new, n)]; a negative [n] puts no limit. *)
Definition Replace (s old new : string) (n : Z) : string :=
  if (n <? 0)%Z then ReplaceAll s old new
  else match old with
       | EmptyString => intersperse_n new (Z.to_nat n) s
       | String _ _ => replace_n old new (Z.to_nat n) 0 s
       end.

End strings.

(** ** pkg/registry/registry.go *)

Module registry.

Record Registry := {
  Name : string;
  URL : string;
  Insecure : bool;
  PlainHTTP : bool
}.

(** [v1.Descriptor]: the fields the glossary names. *)
Record Descriptor := {
  MediaType : string;
  Digest : string;
  Size : Z
}.

(** [v1.Descriptor{}] *)
Definition zeroDescriptor : Descriptor :=
  {| MediaType := ""; Digest := ""; Size := 0%Z |}.

(** [v1.Platform] as built by [Push] from the parsed platform. *)
Record Platform := {
  Architecture : string;
  OS : string;
  OSVersion : string;
  OSFeatures : list string;
  Variant : string
}.

(** [oras.CopyOptions]: the default options, optionally narrowed to a target
    platform by [WithTargetPlatform]. *)
Record CopyOptions := { TargetPlatform : option Platform }.

Definition DefaultCopyOptions : CopyOptions := {| TargetPlatform := None |}.

Definition WithTargetPlatform (opts : CopyOptions) (p : Platform) : CopyOptions :=
  {| TargetPlatform := Some p |}.

(** [remote.Repository] with the fields the source assigns.  [Client] is
    [None] for the library's default client and [Some cs] for the
    [auth.Client] built over the credential store [cs]. *)
Record Repository (Ref CredStore : Type) := {
  Reference : Ref;
  RepoPlainHTTP : bool;
  Client : option CredStore
}.
Arguments Reference {Ref CredStore} _.
Arguments RepoPlainHTTP {Ref CredStore} _.
Arguments Client {Ref CredStore} _.

(** A copy destination: a remote repository, or the in-memory store of
    [Pull]. *)
Inductive Target (Ref CredStore : Type) :=
| RemoteTarget (repo : Repository Ref CredStore)
| MemoryTarget.
Arguments RemoteTarget {Ref CredStore} _.
Arguments MemoryTarget {Ref CredStore}.

(** The transport and its environment: the library calls of the source.
    [World] is the state of the registries; probes and resolutions read it,
    a copy changes it. *)
Class Transport := {
  error : Type;
  Ref : Type;
  CredStore : Type;
  World : Type;
  (** [remote.NewRepository(reference)] parses the reference. *)
  ParseReference : string -> error + Ref;
  (** [credentials.NewStoreFromDocker(credentials.StoreOptions{})] *)
  NewStoreFromDocker : error + CredStore;
  (** [v1_spec.ParsePlatform(s)] *)
  ParsePlatform : string -> error + Platform;
  (** [oras.Copy(ctx, src, srcRef, dst, dstRef, opts)] *)
  oras_Copy :
    World -> Repository Ref CredStore -> string -> Target Ref CredStore ->
    string -> CopyOptions -> (error + Descriptor) * World;
  (** [repo.Resolve(ctx, tag)] *)
  Resolve : World -> Repository Ref CredStore -> string -> error + Descriptor;
  (** [oras.Fetch(ctx, repo, tag, oras.DefaultFetchOptions)]; the source
      uses only the error of the result. *)
  oras_Fetch : World -> Repository Ref CredStore -> string -> option error
}.

Section Remote.

Context {T : Transport}.

Local Abbreviation Repo := (Repository Ref CredStore).

(** [err == nil] *)
Definition isNil (err : option error) : bool :=
  match err with
  | None => true
  | Some _ => false
  end.

(** [remote.NewRepository(reference)]: the new repository uses TLS and the
    default client until the caller assigns otherwise. *)
Definition NewRepository (reference : string) : error + Repo :=
  match ParseReference reference with
  | inl err => inl err
  | inr ref => inr {| Reference := ref; RepoPlainHTTP := false; Client := None |}
  end.

(** [repo.PlainHTTP = b] *)
Definition withPlainHTTP (repo : Repo) (b : bool) : Repo :=
  {| Reference := Reference repo; RepoPlainHTTP := b; Client := Client repo |}.

(** [repo.Client = &auth.Client{..., Credential: credentials.Credential(cs)}] *)
Definition withClient (repo : Repo) (cs : CredStore) : Repo :=
  {| Reference := Reference repo; RepoPlainHTTP := RepoPlainHTTP repo;
     Client := Some cs |}.

(** [func (r Registry) GetName() string] *)
Definition GetName (r : Registry) : string := Name r.

(** The part of [Registry.Push] before the call to [oras.Copy]: the two
    connections and the copy options. *)
Definition Push_connect (r : Registry) (sourceURL name : string)
    (arch : option string) : error + (Repo * Repo * CopyOptions) :=
  match NewStoreFromDocker with
  | inl err => inl err
  | inr credStore =>
    let ref := strings.Join [sourceURL; name] "/" in
    match NewRepository ref with
    | inl err => inl err
    | inr source =>
      let source := withClient source credStore in
      let source :=
        withPlainHTTP source
          (strings.Contains sourceURL "localhost"
           || strings.Contains sourceURL "0.0.0.0") in
      let image := strings.Join [URL r; name] "/" in
      match NewRepository image with
      | inl err => inl err
      | inr target =>
        let target := withClient target credStore in
        let target := withPlainHTTP target (PlainHTTP r) in
        match arch with
        | None => inr (source, target, DefaultCopyOptions)
        | Some a =>
          match ParsePlatform a with
          | inl err => inl err
          | inr v =>
            inr (source, target,
                 WithTargetPlatform DefaultCopyOptions
                   {| Architecture := Architecture v; OS := OS v;
                      OSVersion := OSVersion v; OSFeatures := OSFeatures v;
                      Variant := Variant v |})
          end
        end
      end
    end
  end.

(** [func (r Registry) Push(ctx, sourceURL, name, tag, arch)] *)
Definition Push (w : World) (r : Registry) (sourceURL name tag : string)
    (arch : option string) : (Descriptor * option error) * World :=
  match Push_connect r sourceURL name arch with
  | inl err => ((zeroDescriptor, Some err), w)
  | inr (source, target, opts) =>
    match oras_Copy w source tag (RemoteTarget target) tag opts with
    | (inl err, w') => ((zeroDescriptor, Some err), w')
    | (inr manifest, w') => ((manifest, None), w')
    end
  end.

(** [func (r Registry) Fetch(ctx, name, tag)] *)
Definition Fetch (w : World) (r : Registry) (name tag : string)
    : option Descriptor * option error :=
  let ref := strings.Join [URL r; name] "/" in
  match NewRepository ref with
  | inl err => (None, Some err)
  | inr repo =>
    let repo := withPlainHTTP repo (PlainHTTP r) in
    match NewStoreFromDocker with
    | inl err => (None, Some err)
    | inr credStore =>
      let repo := withClient repo credStore in
      match Resolve w repo tag with
      | inl err => (None, Some err)
      | inr d => (Some d, None)
      end
    end
  end.

(** [func (r Registry) Pull(ctx, name, tag)] *)
Definition Pull (w : World) (r : Registry) (name tag : string)
    : (option Descriptor * option error) * World :=
  let ref := strings.Join [URL r; name] "/" in
  match NewRepository ref with
  | inl err => ((None, Some err), w)
  | inr repo =>
    let repo := withPlainHTTP repo (PlainHTTP r) in
    match NewStoreFromDocker with
    | inl err => ((None, Some err), w)
    | inr credStore =>
      let repo := withClient repo credStore in
      match oras_Copy w repo tag MemoryTarget tag DefaultCopyOptions with
      | (inl err, w') => ((None, Some err), w')
      | (inr d, w') => ((Some d, None), w')
      end
    end
  end.

(** [func Exist(ctx, reference, tag, plainHTTP) (bool, error)] *)
Definition Exist (w : World) (reference tag : string) (plainHTTP : bool)
    : bool * option error :=
  match NewRepository reference with
  | inl err => (false, Some err)
  | inr repo =>
    let repo := withPlainHTTP repo plainHTTP in
    match NewStoreFromDocker with
    | inl err => (false, Some err)
    | inr credStore =>
      let repo := withClient repo credStore in
      let err := oras_Fetch w repo tag in
      (isNil err, err)
    end
  end.

(** [type Exister interface { Exist(ctx, string, string) (bool, error);
    GetName() string }] *)
Class Exister (R : Type) := {
  Exister_Exist : World -> R -> string -> string -> bool * option error;
  Exister_GetName : R -> string
}.

(** [func (r Registry) Exist(ctx, name, tag) (bool, error)] *)
Definition Registry_Exist (w : World) (r : Registry) (name tag : string)
    : bool * option error :=
  Exist w (strings.Join [URL r; name] "/") tag (PlainHTTP r).

(** [var _ Exister = ( *Registry)(nil)] *)
#[export] Instance Registry_Exister : Exister Registry := {
  Exister_Exist := Registry_Exist;
  Exister_GetName := GetName
}.

(** The closure of [Exists]: [func(r Exister) bool], which drops the error
    of the probe. *)
Definition exists_ {R} `{Exister R} (w : World) (ref tag : string) (r : R) : bool :=
  let '(found, err) := Exister_Exist w r ref tag in
  match err with
  | Some _ => false
  | None => found
  end.

(** [func Exists(ctx, ref, tag, registries) map[string]bool]: one iteration
    of the loop is [m[r.URL] = exists]. *)
Definition Exists (w : World) (ref tag : string) (registries : list Registry)
    : gmap string bool :=
  foldl (fun m r => <[URL r := exists_ w ref tag r]> m) ∅ registries.

(** *** The vocabulary of the specification *)

(** [s] has an occurrence of [sub]. *)
Definition occursIn (sub s : string) : Prop :=
  exists pre post, s = pre +:+ sub +:+ post.

(** A source "recognized as a loopback/local address": the two spellings the
    client knows. *)
Definition recognisedLocal (sourceURL : string) : Prop :=
  occursIn "localhost" sourceURL \/ occursIn "0.0.0.0" sourceURL.

(** The per-registry answer of the existence matrix: the probe's boolean,
    with an error folded into [false]. *)
Definition coalesced (probe : bool * option error) : bool :=
  match probe with
  | (_, Some _) => false
  | (b, None) => b
  end.

(** "A probe's error is coalesced to [false]" for the entry of every probed
    registry. *)
Definition probe_errors_become_false (w : World) (ref tag : string)
    (registries : list Registry) : Prop :=
  forall r, r ∈ registries ->
    snd (Registry_Exist w r ref tag) <> None ->
    Exists w ref tag registries !! URL r = Some false.

End Remote.

End registry.

(** ** internal: the image branch of [Program] *)

Module internal.

(** Modelled from the spec: [registry.Image] is declared outside the source
    at hand.  Section 3 gives its identity (registry, repository path, tag,
    optional digest) and its attributes; [Patch] is the nullable boolean
    ([None] unset, [Some false] explicitly excluded, [Some true] explicitly
    included). *)
Record Image := {
  Registry : string;
  Repository : string;
  Tag : string;
  Digest : string;
  UseDigest : bool;
  Patch : option bool
}.

(** [*registry.Image]: [addr] identifies the variable pointed to, [pointee]
    is its value.  Nothing in the modelled code assigns through these
    pointers. *)
Record ImagePtr := {
  addr : nat;
  pointee : Image
}.

#[export] Instance Image_eq_dec : EqDecision Image.
Proof. solve_decision. Defined.

#[export] Instance ImagePtr_eq_dec : EqDecision ImagePtr.
Proof. solve_decision. Defined.

(** Modelled from the spec: the part of [bootstrap.ImportConfigSection] the
    branch reads.  Each output kind (reports, tars) has a folder and its own
    clean-up flag. *)
Record OutputSection := {
  Folder : string;
  Clean : bool
}.

Record CopaceticOutput := {
  Tars : OutputSection;
  Reports : OutputSection
}.

Record CopaceticSection := {
  CopaceticEnabled : bool;
  IgnoreErrors : bool;
  Output : CopaceticOutput
}.

Record CosignSection := {
  CosignEnabled : bool;
  KeyRefPass : option string
}.

Record ImportSection := {
  Enabled : bool;
  Architecture : option string;
  Copacetic : CopaceticSection;
  Cosign : CosignSection
}.

(** The two scanning loops of the branch. *)
Inductive Stage := Prescan | Postscan.

(** The collaborators of the branch.  A call that leaves the process is
    answered per call: [Scan st k ref] is the answer to the call made for the
    [k]-th image of loop [st], so that answers may change over time. *)
Class Env := {
  error : Type;
  Report : Type;
  OSInfo : Type;
  ScanResults : Type;
  Bytes : Type;
  (** [i.String()] *)
  Image_String : Image -> string * option error;
  (** [i.ImageName()] *)
  ImageName : Image -> string * option error;
  (** [r.Metadata.OS] and [r.Results] *)
  Metadata_OS : Report -> OSInfo;
  Results : Report -> ScanResults;
  (** [copa.SupportedOS] and [trivy.ContainsOsPkgs] *)
  SupportedOS : OSInfo -> bool;
  ContainsOsPkgs : ScanResults -> bool;
  (** [json.MarshalIndent(r, "", "  ")] *)
  MarshalIndent : Report -> error + Bytes;
  (** [filepath.Join(dir, file)] *)
  filepath_Join : string -> string -> string;
  (** [so.Scan(ref)] *)
  Scan : Stage -> nat -> string -> error + Report;
  (** [os.WriteFile(fileName, b, os.ModePerm)] *)
  WriteFile : Stage -> nat -> string -> Bytes -> option error;
  (** [os.RemoveAll(path)] *)
  RemoveAll : string -> option error;
  (** [registry.ImportOption{Imgs: imgs, ...}.Run(ctx)] *)
  ImportOption_Run : list ImagePtr -> option error;
  (** the external patcher, invoked for one image with its prescan report
      and its output archive *)
  Patcher : ImagePtr -> string -> string -> option error;
  (** [mySign.SignOption{Imgs: imgs, ...}.Run()] *)
  SignOption_Run : list ImagePtr -> option error
}.

Section Pipeline.

Context {E : Env}.

(** What the branch does to the outside, in program order. *)
Inductive Event :=
| EvScan (st : Stage) (ref : string)
| EvWriteFile (fileName : string) (b : Bytes)
| EvImport (Imgs : list ImagePtr)
| EvPatch (i : ImagePtr) (report out : string)
| EvSign (Imgs : list ImagePtr)
| EvRemoveAll (path : string).

(** Why a block stops early: [return err], or a run-time panic. *)
Inductive Abort :=
| Err (e : error)
| Panic.

(** A block of the branch: the events it emitted, and either the reason it
    stopped or its value. *)
Definition M (A : Type) : Type := (list Event * (Abort + A))%type.

Definition ret {A} (a : A) : M A := ([], inr a).

Definition bind {A B} (m : M A) (f : A -> M B) : M B :=
  match m with
  | (tr, inl ab) => (tr, inl ab)
  | (tr, inr a) =>
      match f a with
      | (tr', r) => (tr ++ tr', r)
      end
  end.

Notation "x <~ m ;; k" := (bind m (fun x => k))
  (at level 100, m at next level, right associativity).

Definition fail {A} (e : error) : M A := ([], inl (Err e)).

(** [v, err := f(); if err != nil { return err }] for a method of this
    repository. *)
Definition check {A} (r : A * option error) : M A :=
  match r with
  | (_, Some e) => fail e
  | (a, None) => ret a
  end.

Definition scan (st : Stage) (k : nat) (ref : string) : M Report :=
  ([EvScan st ref],
   match Scan st k ref with
   | inl e => inl (Err e)
   | inr r => inr r
   end).

Definition marshal (r : Report) : M Bytes :=
  match MarshalIndent r with
  | inl e => fail e
  | inr b => ret b
  end.

Definition writeFile (st : Stage) (k : nat) (fileName : string) (b : Bytes) : M unit :=
  ([EvWriteFile fileName b],
   match WriteFile st k fileName b with
   | Some e => inl (Err e)
   | None => inr tt
   end).

(** [fmt.Sprintf("%s:%s" + ext, name, tag)] *)
Definition Sprintf_name_tag (pre name tag ext : string) : string :=
  pre +:+ name +:+ ":" +:+ tag +:+ ext.

(** The name of the report written by a scanning loop (lines 560-562 and
    677-679): the prefix is added after the separators are replaced. *)
Definition scanReportFile (out pre : string) (i : Image) : string :=
  let name := fst (ImageName i) in
  let fileName := Sprintf_name_tag "" name (Tag i) ".json" in
  filepath_Join out (pre +:+ strings.ReplaceAll fileName "/" "-").

(** The classification loop (lines 513-572), from the [k]-th image on, with
    the [patch] and [push] slices built so far. *)
Fixpoint classify (cfg : ImportSection) (k : nat) (imgs : list Image)
    (patch push : list ImagePtr) : M (list ImagePtr * list ImagePtr) :=
  match imgs with
  | [] => ret (patch, push)
  | i :: rest =>
    let p := {| addr := k; pointee := i |} in
    match Patch i with
    | Some false =>
        ref <~ check (Image_String i) ;;
        classify cfg (S k) rest patch (push ++ [p])
    | _ =>
        ref <~ check (Image_String i) ;;
        r <~ scan Prescan k ref ;;
        let '(patch', push') :=
          if SupportedOS (Metadata_OS r)
          then if ContainsOsPkgs (Results r)
               then (patch ++ [p], push)
               else (patch, push ++ [p])
          else (patch, push ++ [p]) in
        let fileName :=
          scanReportFile (Folder (Reports (Output (Copacetic cfg)))) "prescan-" i in
        b <~ marshal r ;;
        _ <~ writeFile Prescan k fileName b ;;
        classify cfg (S k) rest patch' push'
    end
  end.

(** The three path maps of lines 577-579, keyed by pointer. *)
Record ArtifactPaths := {
  reportFilePaths : gmap nat string;
  reportPostFilePaths : gmap nat string;
  outFilePaths : gmap nat string
}.

Definition prescanPath (cfg : ImportSection) (i : Image) : string :=
  let name := fst (ImageName i) in
  let fileName := Sprintf_name_tag "prescan-" name (Tag i) ".json" in
  filepath_Join (Folder (Reports (Output (Copacetic cfg))))
    (strings.ReplaceAll fileName "/" "-").

Definition postscanPath (cfg : ImportSection) (i : Image) : string :=
  let name := fst (ImageName i) in
  let fileName := Sprintf_name_tag "postscan-" name (Tag i) ".json" in
  filepath_Join (Folder (Reports (Output (Copacetic cfg))))
    (strings.ReplaceAll fileName "/" "-").

Definition archivePath (cfg : ImportSection) (i : Image) : string :=
  let name := fst (ImageName i) in
  let out := Sprintf_name_tag "" name (Tag i) ".tar" in
  filepath_Join (Folder (Tars (Output (Copacetic cfg))))
    (strings.ReplaceAll out "/" "-").

(** One iteration of the loop of lines 580-597. *)
Definition addPaths (cfg : ImportSection) (m : ArtifactPaths) (i : ImagePtr)
    : ArtifactPaths :=
  {| reportFilePaths := <[addr i := prescanPath cfg (pointee i)]> (reportFilePaths m);
     reportPostFilePaths :=
       <[addr i := postscanPath cfg (pointee i)]> (reportPostFilePaths m);
     outFilePaths := <[addr i := archivePath cfg (pointee i)]> (outFilePaths m) |}.

Definition noPaths : ArtifactPaths :=
  {| reportFilePaths := ∅; reportPostFilePaths := ∅; outFilePaths := ∅ |}.

(** [for _, i := range append(patch, push...)] *)
Definition artifactPaths (cfg : ImportSection) (patch push : list ImagePtr)
    : ArtifactPaths :=
  foldl (addPaths cfg) noPaths (patch ++ push).

(** [for _, v := range m { _ = os.RemoveAll(v) }]: the error of each removal
    is dropped.  Go leaves the iteration order of a map open; the order of
    [map_to_list] stands for it. *)
Definition removeValues (m : gmap nat string) : list Event :=
  (fun kv => let _ := RemoveAll (snd kv) in EvRemoveAll (snd kv)) <$> map_to_list m.

(** The deferred clean-up closure (lines 600-614). *)
Definition cleanup (cfg : ImportSection) (m : ArtifactPaths) : list Event :=
  (if Clean (Reports (Output (Copacetic cfg)))
   then removeValues (reportFilePaths m) ++ removeValues (reportPostFilePaths m)
   else [])
  ++
  (if Clean (Reports (Output (Copacetic cfg)))
   then removeValues (outFilePaths m)
   else []).

(** [iOpts.Run(ctx)] *)
Definition importImages (Imgs : list ImagePtr) : M unit :=
  ([EvImport Imgs],
   match ImportOption_Run Imgs with
   | Some e => inl (Err e)
   | None => inr tt
   end).

(** Go's map index expression: the zero value for a missing key. *)
Definition pathOf (m : gmap nat string) (i : ImagePtr) : string :=
  default "" (m !! addr i).

(** Modelled from the spec: [copa.PatchOption.Run] is declared outside the
    source at hand.  Section 4.4: the patcher is invoked per selected image
    with its prescan report, producing an archive at the corresponding
    output path; with [IgnoreErrors] a failure is skipped, without it the
    failure stops the batch. *)
Fixpoint PatchOption_Run (ignoreErrors : bool) (Imgs : list ImagePtr)
    (reports outs : gmap nat string) : M unit :=
  match Imgs with
  | [] => ret tt
  | i :: rest =>
    let report := pathOf reports i in
    let out := pathOf outs i in
    _ <~ ([EvPatch i report out],
          match Patcher i report out with
          | Some e => if ignoreErrors then inr tt else inl (Err e)
          | None => inr tt
          end) ;;
    PatchOption_Run ignoreErrors rest reports outs
  end.

(** The rescanning closure (lines 668-691), from the [k]-th image on. *)
Fixpoint rescan (out pre : string) (k : nat) (imgs : list Image) : M unit :=
  match imgs with
  | [] => ret tt
  | i :: rest =>
    let ref := fst (Image_String i) in
    r <~ scan Postscan k ref ;;
    let fileName := scanReportFile out pre i in
    b <~ marshal r ;;
    _ <~ writeFile Postscan k fileName b ;;
    rescan out pre (S k) rest
  end.

(** Signing (lines 698-711 and 731-744): building the option value
    dereferences [KeyRefPass] before [Run] is called. *)
Definition sign (cfg : ImportSection) (Imgs : list ImagePtr) : M unit :=
  if CosignEnabled (Cosign cfg)
  then match KeyRefPass (Cosign cfg) with
       | None => ([], inl Panic)
       | Some _ =>
           ([EvSign Imgs],
            match SignOption_Run Imgs with
            | Some e => inl (Err e)
            | None => inr tt
            end)
       end
  else ret tt.

(** How [Program] leaves the branch. *)
Inductive Outcome :=
| Returned (err : option error)
| Panicked.

Definition outcome (r : Abort + unit) : Outcome :=
  match r with
  | inl (Err e) => Returned (Some e)
  | inl Panic => Panicked
  | inr _ => Returned None
  end.

(** Lines 616-711: what runs once the clean-up is deferred. *)
Definition afterDefer (cfg : ImportSection) (imgs : list Image)
    (patch push : list ImagePtr) (m : ArtifactPaths) : M unit :=
  _ <~ importImages push ;;
  _ <~ PatchOption_Run (IgnoreErrors (Copacetic cfg)) patch
         (reportFilePaths m) (outFilePaths m) ;;
  _ <~ rescan (Folder (Reports (Output (Copacetic cfg)))) "postscan-" 0 imgs ;;
  sign cfg (patch ++ push).

(** The branch [case importConfig.Import.Enabled &&
    importConfig.Import.Copacetic.Enabled] (lines 482-711).  An error in the
    classification loop returns before the clean-up is deferred. *)
Definition Program_copacetic (cfg : ImportSection) (imgs : list Image)
    : list Event * Outcome :=
  match classify cfg 0 imgs [] [] with
  | (tr, inl ab) => (tr, outcome (inl ab))
  | (tr, inr (patch, push)) =>
      let m := artifactPaths cfg patch push in
      match afterDefer cfg imgs patch push m with
      | (tr', r) => (tr ++ tr' ++ cleanup cfg m, outcome r)
      end
  end.

(** [imgPs = append(imgPs, &i)] for every image, in order. *)
Fixpoint pointers (k : nat) (imgs : list Image) : list ImagePtr :=
  match imgs with
  | [] => []
  | i :: rest => {| addr := k; pointee := i |} :: pointers (S k) rest
  end.

(** The branch [case importConfig.Import.Enabled] (lines 713-745). *)
Definition Program_importOnly (cfg : ImportSection) (imgs : list Image)
    : list Event * Outcome :=
  let imgPs := pointers 0 imgs in
  match (_ <~ importImages imgPs ;; sign cfg imgPs) with
  | (tr, r) => (tr, outcome r)
  end.

(** The [switch] of lines 481-745. *)
Definition Program_images (cfg : ImportSection) (imgs : list Image)
    : list Event * Outcome :=
  if Enabled cfg && CopaceticEnabled (Copacetic cfg)
  then Program_copacetic cfg imgs
  else if Enabled cfg
       then Program_importOnly cfg imgs
       else ([], Returned None).

(** *** The vocabulary of the specification *)

Inductive Decision := PushOnly | PatchThenPush.

(** The classification table of section 4.3, as the specification words
    it. *)
Definition table (patchFlag : option bool) (osSupported osPkgFindings : bool)
    : Decision :=
  match patchFlag with
  | Some false => PushOnly
  | _ =>
      match osSupported, osPkgFindings with
      | false, _ => PushOnly
      | true, false => PushOnly
      | true, true => PatchThenPush
      end
  end.

(** The decision the loop took for a pointer: the slice it sits in. *)
Definition decisionOf (patch : list ImagePtr) (p : ImagePtr) : Decision :=
  if bool_decide (p ∈ patch) then PatchThenPush else PushOnly.

(** *** Characterisations used by the properties *)

(** Whether the loop sends the [k]-th image to [patch]. *)
Definition wantsPatch (k : nat) (i : Image) : bool :=
  match Patch i with
  | Some false => false
  | _ =>
      match Scan Prescan k (fst (Image_String i)) with
      | inr r => SupportedOS (Metadata_OS r) && ContainsOsPkgs (Results r)
      | inl _ => false
      end
  end.

(** The events of the iteration of the classification loop for one image. *)
Definition prescanEvents (cfg : ImportSection) (p : ImagePtr) : list Event :=
  match Patch (pointee p) with
  | Some false => []
  | _ =>
      EvScan Prescan (fst (Image_String (pointee p))) ::
      match Scan Prescan (addr p) (fst (Image_String (pointee p))) with
      | inr r =>
          match MarshalIndent r with
          | inr b =>
              [EvWriteFile
                 (scanReportFile (Folder (Reports (Output (Copacetic cfg))))
                    "prescan-" (pointee p)) b]
          | inl _ => []
          end
      | inl _ => []
      end
  end.

(** What an iteration of the classification loop that completes has seen:
    the reference was built and, unless the image is excluded, the scan and
    the encoding of its report succeeded. *)
Definition iterationOk (p : ImagePtr) : Prop :=
  snd (Image_String (pointee p)) = None
  /\ (Patch (pointee p) <> Some false ->
      exists r b,
        Scan Prescan (addr p) (fst (Image_String (pointee p))) = inr r
        /\ MarshalIndent r = inr b).

(** The events of the iteration of the rescanning loop for one image. *)
Definition postscanEvents (cfg : ImportSection) (p : ImagePtr) : list Event :=
  EvScan Postscan (fst (Image_String (pointee p))) ::
  match Scan Postscan (addr p) (fst (Image_String (pointee p))) with
  | inr r =>
      match MarshalIndent r with
      | inr b =>
          [EvWriteFile
             (scanReportFile (Folder (Reports (Output (Copacetic cfg))))
                "postscan-" (pointee p)) b]
      | inl _ => []
      end
  | inl _ => []
  end.

(** What an iteration of the rescanning loop that completes has seen. *)
Definition rescanOk (p : ImagePtr) : Prop :=
  exists r b,
    Scan Postscan (addr p) (fst (Image_String (pointee p))) = inr r
    /\ MarshalIndent r = inr b.

(** An event is not a run of the patcher, or is one for an image of
    [Imgs]. *)
Definition patcherRunsWithin (Imgs : list ImagePtr) (ev : Event) : Prop :=
  match ev with
  | EvPatch i _ _ => i ∈ Imgs
  | _ => True
  end.

(** A file was written at [path]. *)
Definition wroteFile (tr : list Event) (path : string) : bool :=
  existsb (fun ev => match ev with
                     | EvWriteFile f _ => String.eqb f path
                     | _ => false
                     end) tr.

(** The patcher was run towards the archive [path]. *)
Definition wroteArchive (tr : list Event) (path : string) : bool :=
  existsb (fun ev => match ev with
                     | EvPatch _ _ out => String.eqb out path
                     | _ => false
                     end) tr.

(** [path] was handed to [os.RemoveAll]. *)
Definition removed (tr : list Event) (path : string) : bool :=
  existsb (fun ev => match ev with
                     | EvRemoveAll f => String.eqb f path
                     | _ => false
                     end) tr.

(** Which of the three artifacts of an image a run has produced: prescan
    report, postscan report, patched archive. *)
Definition populated (cfg : ImportSection) (tr : list Event) (i : Image)
    : bool * bool * bool :=
  (wroteFile tr (prescanPath cfg i),
   wroteFile tr (postscanPath cfg i),
   wroteArchive tr (archivePath cfg i)).

(** "The decision determines which artifact paths are populated": two images
    with the same decision have the same artifacts populated. *)
Definition decision_determines_artifacts (cfg : ImportSection)
    (tr : list Event) (patch push : list ImagePtr) : Prop :=
  forall p q, p ∈ patch ++ push -> q ∈ patch ++ push ->
    decisionOf patch p = decisionOf patch q ->
    populated cfg tr (pointee p) = populated cfg tr (pointee q).

(** "No postscan report is produced for images whose decision was
    push-only". *)
Definition no_postscan_for_push_only (cfg : ImportSection)
    (tr : list Event) (push : list ImagePtr) : Prop :=
  forall p, p ∈ push -> wroteFile tr (postscanPath cfg (pointee p)) = false.

End Pipeline.

(** *** [modify]: exclusion, rewriting and mirroring of chart images *)

(** The parts of [helm.Chart] and of its [Images] section that [modify]
    reads: the [Ref] of each exclusion and the [From]/[To] of each rewriting
    rule. *)
Record ModifyRule := {
  From : string;
  To : string
}.

Record ImagesSection := {
  Exclude : list string;
  ExcludeCopacetic : list string;
  Modify : list ModifyRule
}.

Record Chart := {
  Name : string;
  Version : string;
  Images : option ImagesSection
}.

(** [bootstrap.MirrorConfigSection] *)
Record MirrorConfigSection := {
  MirrorRegistry : string;
  Mirror : string
}.

(** The memory [modify] works on: the images behind the pointers, the map
    [m] of one chart from image pointer to value paths, and the next unused
    address. *)
Record Cell := {
  pointees : nat -> Image;
  values : gmap nat (list string);
  fresh : nat
}.

(** Assignment to the variable at address [i]. *)
Definition store (i : nat) (img : Image) (f : nat -> Image) : nat -> Image :=
  fun j => if Nat.eqb j i then img else f j.

(** [delete(m, i)] *)
Definition deleteKey (i : nat) (st : Cell) : Cell :=
  {| pointees := pointees st; values := delete i (values st); fresh := fresh st |}.

(** [f := false; i.Patch = &f] *)
Definition excludeFromPatching (i : nat) (st : Cell) : Cell :=
  let img := pointees st i in
  {| pointees :=
       store i {| Registry := Registry img; Repository := Repository img;
                  Tag := Tag img; Digest := Digest img;
                  UseDigest := UseDigest img; Patch := Some false |}
         (pointees st);
     values := values st;
     fresh := fresh st |}.

(** [i.Registry = mirror] *)
Definition setRegistry (i : nat) (mirror : string) (st : Cell) : Cell :=
  let img := pointees st i in
  {| pointees :=
       store i {| Registry := mirror; Repository := Repository img;
                  Tag := Tag img; Digest := Digest img;
                  UseDigest := UseDigest img; Patch := Patch img |}
         (pointees st);
     values := values st;
     fresh := fresh st |}.

(** [m[&img] = vs] for a new variable [img]. *)
Definition insertNew (img : Image) (vs : list string) (st : Cell) : Cell :=
  {| pointees := store (fresh st) img (pointees st);
     values := <[fresh st := vs]> (values st);
     fresh := S (fresh st) |}.

(** The image a rewriting rule inserts: the parsed reference with the
    digest, tag and patch flag of the image it replaces (lines 294-297). *)
Definition rewritten (parsed src : Image) : Image :=
  {| Registry := Registry parsed; Repository := Repository parsed;
     Tag := Tag src; Digest := Digest src;
     UseDigest := UseDigest src; Patch := Patch src |}.

(** [strings.HasPrefix(r, e.Ref)] for some [e] of the list: the loops of
    lines 266-272 and 273-280 act once, at the first match. *)
Definition anyPrefix (r : string) (refs : list string) : bool :=
  existsb (fun ref => strings.HasPrefix r ref) refs.

(** A rule applies to [r] (lines 282-284). *)
Definition ruleApplies (r : string) (rule : ModifyRule) : bool :=
  negb (String.eqb (From rule) "") && strings.HasPrefix r (From rule).

(** Between two states every older entry other than that of [i] is as it
    was: the same image behind the pointer, the same value paths. *)
Definition othersKept (i : nat) (st st' : Cell) : Prop :=
  fresh st <= fresh st'
  /\ forall j, j < fresh st -> j <> i ->
       pointees st' j = pointees st j /\ values st' !! j = values st !! j.

Section Modify.

Context {E : Env}.

(** [registry.RefToImage(ref)] *)
Variable RefToImage : string -> Image * option error.

(** The loop over [c.Images.Modify] (lines 281-308) for the image at [i],
    whose reference was [r] and whose value paths are [vs]. *)
Fixpoint applyRules (r : string) (i : nat) (vs : list string)
    (rules : list ModifyRule) (st : Cell) : Cell * option error :=
  match rules with
  | [] => (st, None)
  | rule :: rest =>
      if ruleApplies r rule
      then
        let st := deleteKey i st in
        match RefToImage (strings.Replace r (From rule) (To rule) 1) with
        | (_, Some err) => (st, Some err)
        | (img, None) =>
            let img := rewritten img (pointees st i) in
            let st := insertNew img vs st in
            match Image_String img with
            | (_, Some err) => (st, Some err)
            | (_, None) => applyRules r i vs rest st
            end
        end
      else applyRules r i vs rest st
  end.

(** [slices.Filter(mirrorConfig, ...)] followed by the assignment of
    [ms[0].Mirror] (lines 312-321). *)
Definition replaceMirror (mirrorConfig : list MirrorConfigSection) (i : nat)
    (st : Cell) : Cell :=
  match List.filter
          (fun m => String.eqb (MirrorRegistry m) (Registry (pointees st i)))
          mirrorConfig with
  | [] => st
  | m :: _ => setRegistry i (Mirror m) st
  end.

(** The body of the inner loop of [modify] (lines 260-321) for the entry
    [i, vs] of the map of chart [c]. *)
Definition modifyEntry (c : Chart) (mirrorConfig : list MirrorConfigSection)
    (i : nat) (vs : list string) (st : Cell) : Cell * option error :=
  match Image_String (pointees st i) with
  | (_, Some err) => (st, Some err)
  | (r, None) =>
      let '(st, err) :=
        match Images c with
        | None => (st, None)
        | Some images =>
            let st := if anyPrefix r (Exclude images) then deleteKey i st else st in
            let st := if anyPrefix r (ExcludeCopacetic images)
                      then excludeFromPatching i st else st in
            applyRules r i vs (Modify images) st
        end in
      match err with
      | Some err => (st, Some err)
      | None => (replaceMirror mirrorConfig i st, None)
      end
  end.

(** [for i, vs := range m] for one chart.  Go leaves the order of a map
    range open, and an entry inserted during the range may or may not be
    produced: the keys produced are given by [order], and a key that is not
    in the map when its turn comes is not produced. *)
Fixpoint modifyChart (c : Chart) (mirrorConfig : list MirrorConfigSection)
    (order : list nat) (st : Cell) : Cell * option error :=
  match order with
  | [] => (st, None)
  | i :: rest =>
      match values st !! i with
      | None => modifyChart c mirrorConfig rest st
      | Some vs =>
          match modifyEntry c mirrorConfig i vs st with
          | (st, Some err) => (st, Some err)
          | (st, None) => modifyChart c mirrorConfig rest st
          end
      end
  end.

End Modify.

(** *** Further vocabulary for the properties of the branch *)

Section Stages.

Context {E : Env}.

(** An event of the classification loop: a prescan or a file written. *)
Definition isPrescanEvent (ev : Event) : Prop :=
  match ev with
  | EvScan Prescan _ => True
  | EvWriteFile _ _ => True
  | _ => False
  end.

Definition isRemoval (ev : Event) : Prop :=
  match ev with
  | EvRemoveAll _ => True
  | _ => False
  end.

(** An event of the import-only branch: the import or the signing of
    [Imgs]. *)
Definition isImportOrSignOf (Imgs : list ImagePtr) (ev : Event) : Prop :=
  ev = EvImport Imgs \/ ev = EvSign Imgs.

(** The events of the signing step when it does not stop the branch. *)
Definition signEvents (cfg : ImportSection) (Imgs : list ImagePtr) : list Event :=
  if CosignEnabled (Cosign cfg) then [EvSign Imgs] else [].

End Stages.

End internal.

(** ** Concrete collaborators, for evaluating the model *)

Module demo.

(** A small registry world: the manifests each repository holds under each
    tag, and the repositories that are served over plain HTTP only. *)
Record World := {
  manifests : gmap (string * string) registry.Descriptor;
  httpOnly : list string
}.

Definition lookupManifest (w : World) (reference tag : string)
    : string + registry.Descriptor :=
  match manifests w !! (reference, tag) with
  | Some d => inr d
  | None => inl "manifest unknown"
  end.

(** A TLS connection to a plain-HTTP endpoint fails before any lookup. *)
Definition reachable (w : World) (repo : registry.Repository string unit) : bool :=
  negb (bool_decide (registry.Reference repo ∈ httpOnly w))
  || registry.RepoPlainHTTP repo.

Definition transport : registry.Transport := {|
  registry.error := string;
  registry.Ref := string;
  registry.CredStore := unit;
  registry.World := World;
  registry.ParseReference := fun s =>
    if String.eqb s "" then inl "invalid reference" else inr s;
  registry.NewStoreFromDocker := inr tt;
  registry.ParsePlatform := fun s =>
    inr {| registry.Architecture := s; registry.OS := "linux";
           registry.OSVersion := ""; registry.OSFeatures := [];
           registry.Variant := "" |};
  registry.oras_Copy := fun w src srcRef dst dstRef opts =>
    if reachable w src
    then match lookupManifest w (registry.Reference src) srcRef with
         | inl e => (inl e, w)
         | inr d =>
             match dst with
             | registry.RemoteTarget t =>
                 if reachable w t
                 then (inr d,
                       {| manifests := <[(registry.Reference t, dstRef) := d]> (manifests w);
                          httpOnly := httpOnly w |})
                 else (inl "http: server gave HTTP response to HTTPS client", w)
             | registry.MemoryTarget => (inr d, w)
             end
         end
    else (inl "http: server gave HTTP response to HTTPS client", w);
  registry.Resolve := fun w repo tag =>
    if reachable w repo
    then lookupManifest w (registry.Reference repo) tag
    else inl "http: server gave HTTP response to HTTPS client";
  registry.oras_Fetch := fun w repo tag =>
    if reachable w repo
    then match lookupManifest w (registry.Reference repo) tag with
         | inl e => Some e
         | inr _ => None
         end
    else Some "http: server gave HTTP response to HTTPS client"
|}.

Definition appManifest : registry.Descriptor :=
  {| registry.MediaType := "application/vnd.oci.image.manifest.v1+json";
     registry.Digest := "sha256:0a1b";
     registry.Size := 527%Z |}.

(** [app:1.0] is held by the upstream repository and by the mirror, which
    speaks plain HTTP only; the third registry holds nothing. *)
Definition world : World :=
  {| manifests :=
       {[ ("upstream.example/app", "1.0") := appManifest;
          ("mirror.example/app", "1.0") := appManifest ]};
     httpOnly := ["mirror.example/app"] |}.

Definition mirrorTLS : registry.Registry :=
  {| registry.Name := "mirror-tls"; registry.URL := "mirror.example";
     registry.Insecure := false; registry.PlainHTTP := false |}.

Definition mirrorPlain : registry.Registry :=
  {| registry.Name := "mirror-plain"; registry.URL := "mirror.example";
     registry.Insecure := false; registry.PlainHTTP := true |}.

Definition upstream : registry.Registry :=
  {| registry.Name := "upstream"; registry.URL := "upstream.example";
     registry.Insecure := false; registry.PlainHTTP := false |}.

Definition empty : registry.Registry :=
  {| registry.Name := "empty"; registry.URL := "empty.example";
     registry.Insecure := false; registry.PlainHTTP := false |}.

Definition target : registry.Registry :=
  {| registry.Name := "target"; registry.URL := "target.example";
     registry.Insecure := false; registry.PlainHTTP := false |}.

(** The world once [app:1.0] has been copied to the target registry. *)
Definition worldAfterPush : World :=
  {| manifests := <[("target.example/app", "1.0") := appManifest]> (manifests world);
     httpOnly := httpOnly world |}.

(** The connections of a push from a local source registry. *)
Definition localSource : registry.Repository string unit :=
  {| registry.Reference := "localhost:5000/app";
     registry.RepoPlainHTTP := true;
     registry.Client := Some tt |}.

Definition targetRepo : registry.Repository string unit :=
  {| registry.Reference := "target.example/app";
     registry.RepoPlainHTTP := false;
     registry.Client := Some tt |}.

(** Collaborators of the pipeline: a scanner that knows three images, a
    patcher that supports Debian, Alpine and Ubuntu, and a file system,
    registry and signer that never fail. *)
Definition imageRef (i : internal.Image) : string :=
  internal.Registry i +:+ "/" +:+ internal.Repository i +:+ ":" +:+ internal.Tag i.

Definition env : internal.Env := {|
  internal.error := string;
  internal.Report := (string * nat)%type;
  internal.OSInfo := string;
  internal.ScanResults := nat;
  internal.Bytes := string;
  internal.Image_String := fun i =>
    if String.eqb (internal.Repository i) ""
    then ("", Some "image: repository missing")
    else (imageRef i, None);
  internal.ImageName := fun i =>
    if String.eqb (internal.Repository i) ""
    then ("", Some "image: repository missing")
    else (internal.Repository i, None);
  internal.Metadata_OS := fst;
  internal.Results := snd;
  internal.SupportedOS := fun os =>
    String.eqb os "debian" || String.eqb os "alpine" || String.eqb os "ubuntu";
  internal.ContainsOsPkgs := fun n => negb (Nat.eqb n 0);
  internal.MarshalIndent := fun r => inr (fst r);
  internal.filepath_Join := fun dir file =>
    if String.eqb dir "" then file else dir +:+ "/" +:+ file;
  internal.Scan := fun st _ ref =>
    if String.eqb ref "docker.io/library/app:1.0"
    then inr ("debian", match st with internal.Prescan => 1 | internal.Postscan => 0 end)
    else if String.eqb ref "docker.io/tool:2.3" then inr ("alpine", 0)
    else if String.eqb ref "docker.io/vendor/agent:0.9" then inr ("windows", 4)
    else inl "scan: image not found";
  internal.WriteFile := fun _ _ _ _ => None;
  internal.RemoveAll := fun _ => None;
  internal.ImportOption_Run := fun _ => None;
  internal.Patcher := fun _ _ _ => None;
  internal.SignOption_Run := fun _ => None
|}.

Definition image (repository tag : string) (patch : option bool) : internal.Image :=
  {| internal.Registry := "docker.io"; internal.Repository := repository;
     internal.Tag := tag; internal.Digest := ""; internal.UseDigest := false;
     internal.Patch := patch |}.

Definition app : internal.Image := image "library/app" "1.0" None.
Definition tool : internal.Image := image "tool" "2.3" None.
Definition agent : internal.Image := image "vendor/agent" "0.9" None.
Definition appExcluded : internal.Image := image "library/app" "1.0" (Some false).

Definition ptr (k : nat) (i : internal.Image) : internal.ImagePtr :=
  {| internal.addr := k; internal.pointee := i |}.

Definition config (cleanReports cleanTars : bool) : internal.ImportSection :=
  {| internal.Enabled := true;
     internal.Architecture := None;
     internal.Copacetic :=
       {| internal.CopaceticEnabled := true;
          internal.IgnoreErrors := false;
          internal.Output :=
            {| internal.Tars :=
                 {| internal.Folder := "tars"; internal.Clean := cleanTars |};
               internal.Reports :=
                 {| internal.Folder := "reports"; internal.Clean := cleanReports |} |} |};
     internal.Cosign :=
       {| internal.CosignEnabled := false; internal.KeyRefPass := None |} |}.

(** The collaborators of [env] with a target registry that refuses the
    import. *)
Definition envImportDown : internal.Env := {|
  internal.error := string;
  internal.Report := (string * nat)%type;
  internal.OSInfo := string;
  internal.ScanResults := nat;
  internal.Bytes := string;
  internal.Image_String := internal.Image_String (Env := env);
  internal.ImageName := internal.ImageName (Env := env);
  internal.Metadata_OS := fst;
  internal.Results := snd;
  internal.SupportedOS := internal.SupportedOS (Env := env);
  internal.ContainsOsPkgs := internal.ContainsOsPkgs (Env := env);
  internal.MarshalIndent := fun r => inr (fst r);
  internal.filepath_Join := internal.filepath_Join (Env := env);
  internal.Scan := internal.Scan (Env := env);
  internal.WriteFile := fun _ _ _ _ => None;
  internal.RemoveAll := fun _ => None;
  internal.ImportOption_Run := fun _ => Some "push: connection refused";
  internal.Patcher := fun _ _ _ => None;
  internal.SignOption_Run := fun _ => None
|}.

(** [config] with the reports kept or cleaned and with signing enabled,
    with or without a passphrase. *)
Definition configSigning (cleanReports : bool) (pass : option string)
    : internal.ImportSection :=
  {| internal.Enabled := true;
     internal.Architecture := None;
     internal.Copacetic := internal.Copacetic (config cleanReports false);
     internal.Cosign :=
       {| internal.CosignEnabled := true; internal.KeyRefPass := pass |} |}.

(** A reference parser for the rewriting rules: registry up to the first
    ['/'], then repository and tag around the first [':']. *)
Fixpoint cutAt (c : ascii) (s : string) : option (string * string) :=
  match s with
  | EmptyString => None
  | String x s' =>
      if Ascii.eqb x c then Some (EmptyString, s')
      else match cutAt c s' with
           | Some (before, after) => Some (String x before, after)
           | None => None
           end
  end.

Definition refToImage (ref : string) : internal.Image * option string :=
  match cutAt "/" ref with
  | None => (image "" "" None, Some "image: invalid reference")
  | Some (reg, rest) =>
      let '(repo, tag) := match cutAt ":" rest with
                          | Some (repo, tag) => (repo, tag)
                          | None => (rest, "latest")
                          end in
      ({| internal.Registry := reg; internal.Repository := repo;
          internal.Tag := tag; internal.Digest := "";
          internal.UseDigest := false; internal.Patch := None |}, None)
  end.

(** An [Images] section that excludes [tool], keeps the [library] images
    away from the patcher and rewrites Docker Hub library references to a
    mirror registry; and the same section without rewriting rules. *)
Definition hubRule : internal.ModifyRule :=
  {| internal.From := "docker.io/library"; internal.To := "mirror.example/hub" |}.

Definition images : internal.ImagesSection :=
  {| internal.Exclude := ["docker.io/tool"];
     internal.ExcludeCopacetic := ["docker.io/library"];
     internal.Modify := [hubRule] |}.

Definition imagesNoRules : internal.ImagesSection :=
  {| internal.Exclude := ["docker.io/tool"];
     internal.ExcludeCopacetic := ["docker.io/library"];
     internal.Modify := [] |}.

Definition chart : internal.Chart :=
  {| internal.Name := "platform"; internal.Version := "1.2.3";
     internal.Images := Some images |}.

Definition chartNoRules : internal.Chart :=
  {| internal.Name := "platform"; internal.Version := "1.2.3";
     internal.Images := Some imagesNoRules |}.

(** An [Images] section whose exclusion and whose rewriting rule have an
    empty reference. *)
Definition imagesEmptyRefs : internal.ImagesSection :=
  {| internal.Exclude := [""];
     internal.ExcludeCopacetic := [];
     internal.Modify :=
       [{| internal.From := ""; internal.To := "mirror.example/hub" |}] |}.

Definition chartEmptyRefs : internal.Chart :=
  {| internal.Name := "platform"; internal.Version := "1.2.3";
     internal.Images := Some imagesEmptyRefs |}.

Definition mirrors : list internal.MirrorConfigSection :=
  [{| internal.MirrorRegistry := "docker.io"; internal.Mirror := "cache.example" |}].

(** Two chart images, [app] at address 0 and [tool] at address 1. *)
Definition cell : internal.Cell :=
  {| internal.pointees := fun k => match k with 0 => app | 1 => tool | _ => agent end;
     internal.values := {[ 0 := ["image"]; 1 := ["sidecar.image"] ]};
     internal.fresh := 2 |}.

(** A host without Docker configuration and with a platform parser that
    rejects everything; the registries are those of [transport]. *)
Definition offline : registry.Transport := {|
  registry.error := string;
  registry.Ref := string;
  registry.CredStore := unit;
  registry.World := World;
  registry.ParseReference := registry.ParseReference (Transport := transport);
  registry.NewStoreFromDocker := inl "docker config: no such file";
  registry.ParsePlatform := fun _ => inl "platform: unknown architecture";
  registry.oras_Copy := registry.oras_Copy (Transport := transport);
  registry.Resolve := registry.Resolve (Transport := transport);
  registry.oras_Fetch := registry.oras_Fetch (Transport := transport)
|}.

(** The collaborators of [transport] with the rejecting platform parser. *)
Definition strictPlatform : registry.Transport := {|
  registry.error := string;
  registry.Ref := string;
  registry.CredStore := unit;
  registry.World := World;
  registry.ParseReference := registry.ParseReference (Transport := transport);
  registry.NewStoreFromDocker := inr tt;
  registry.ParsePlatform := fun _ => inl "platform: unknown architecture";
  registry.oras_Copy := registry.oras_Copy (Transport := transport);
  registry.Resolve := registry.Resolve (Transport := transport);
  registry.oras_Fetch := registry.oras_Fetch (Transport := transport)
|}.

End demo.

(** * Properties *)

(** ** Facts about the string functions *)

Section StringFacts.

Import strings.

Lemma append_assoc (a b c : string) : (a +:+ b) +:+ c = a +:+ b +:+ c.
Proof.
  induction a as [|x a IH]; [reflexivity |].
  change (String x ((a +:+ b) +:+ c) = String x (a +:+ b +:+ c)).
  f_equal. exact IH.
Qed.

Lemma HasPrefix_append (p t : string) : HasPrefix (p +:+ t) p = true.
Proof.
  induction p as [|c p IH]; simpl; [reflexivity |].
  now rewrite Ascii.eqb_refl.
Qed.

Lemma HasPrefix_inv (p s : string) :
  HasPrefix s p = true -> exists t, s = p +:+ t.
Proof.
  revert s. induction p as [|c p IH]; intros s Hp; simpl in *.
  - now exists s.
  - destruct s as [|x s]; [discriminate |].
    destruct (Ascii.eqb x c) eqn:Hx; [| discriminate].
    apply Ascii.eqb_eq in Hx. subst x.
    destruct (IH _ Hp) as [t ->]. now exists t.
Qed.

Lemma Contains_unfold (s sub : string) :
  Contains s sub =
  if HasPrefix s sub then true
  else match s with
       | EmptyString => false
       | String _ s' => Contains s' sub
       end.
Proof. destruct s; reflexivity. Qed.

(** [strings.Contains] decides the occurrence of a substring. *)
Lemma Contains_occursIn (s sub : string) :
  Contains s sub = true <-> registry.occursIn sub s.
Proof.
  unfold registry.occursIn. split.
  - induction s as [|c s IH]; rewrite Contains_unfold;
      destruct (HasPrefix _ sub) eqn:Hp; try discriminate.
    + intros _. destruct (HasPrefix_inv _ _ Hp) as [t Ht].
      exists EmptyString, t. exact Ht.
    + intros _. destruct (HasPrefix_inv _ _ Hp) as [t Ht].
      exists EmptyString, t. exact Ht.
    + intros Hc. destruct (IH Hc) as (pre & post & ->).
      now exists (String c pre), post.
  - intros (pre & post & ->).
    induction pre as [|c pre IH].
    + change (EmptyString +:+ sub +:+ post) with (sub +:+ post).
      now rewrite Contains_unfold, HasPrefix_append.
    + change (String c pre +:+ sub +:+ post) with (String c (pre +:+ sub +:+ post)).
      rewrite Contains_unfold.
      destruct (HasPrefix _ sub); [reflexivity | exact IH].
Qed.

(** An empty [old]: the new text goes around UTF-8 sequences, not inside
    them, and an invalid byte counts as a sequence of its own. *)
Example ReplaceAll_empty_old :
  ReplaceAll "ab" "" "-" = "-a-b-"
  /\ ReplaceAll "" "" "-" = "-"
  /\ ReplaceAll (String (ascii_of_nat 195) (String (ascii_of_nat 169) "b")) "" "-"
     = "-" +:+ String (ascii_of_nat 195) (String (ascii_of_nat 169) "-b-")
  /\ ReplaceAll (String (ascii_of_nat 169) "b") "" "-"
     = "-" +:+ String (ascii_of_nat 169) "-b-"
  /\ Replace "abc" "" "-" 2 = "-a-bc".
Proof. repeat split; vm_compute; reflexivity. Qed.

(** Replacing a one-character [old] works character by character. *)
Lemma ReplaceAll_slash_cons (c : ascii) (s : string) :
  ReplaceAll (String c s) "/" "-" =
  (if Ascii.eqb c "/" then "-" else String c EmptyString)
  +:+ ReplaceAll s "/" "-".
Proof.
  unfold ReplaceAll. simpl. destruct (Ascii.eqb c "/"); reflexivity.
Qed.

Lemma ReplaceAll_slash_append (a b : string) :
  ReplaceAll (a +:+ b) "/" "-" = ReplaceAll a "/" "-" +:+ ReplaceAll b "/" "-".
Proof.
  induction a as [|c a IH]; [reflexivity |].
  change (String c a +:+ b) with (String c (a +:+ b)).
  rewrite !ReplaceAll_slash_cons, IH, append_assoc. reflexivity.
Qed.

(** After the replacement no separator is left. *)
Lemma ReplaceAll_slash_clean (s : string) :
  Contains (ReplaceAll s "/" "-") "/" = false.
Proof.
  induction s as [|c s IH]; [reflexivity |].
  rewrite ReplaceAll_slash_cons.
  destruct (Ascii.eqb c "/") eqn:Hc; simpl.
  - exact IH.
  - rewrite Hc. exact IH.
Qed.

(** A string without separator is left as it is. *)
Lemma ReplaceAll_slash_id (s : string) :
  Contains s "/" = false -> ReplaceAll s "/" "-" = s.
Proof.
  induction s as [|c s IH]; [reflexivity |].
  rewrite Contains_unfold, ReplaceAll_slash_cons.
  change (HasPrefix (String c s) "/") with (if Ascii.eqb c "/" then true else false).
  destruct (Ascii.eqb c "/"); [discriminate |].
  intros Hs. now rewrite (IH Hs).
Qed.

End StringFacts.

(** ** The registry client *)

Section RegistryFacts.

Import registry.

Context {T : Transport}.

Lemma exists_coalesced (w : World) (ref tag : string) (r : Registry) :
  exists_ w ref tag r = coalesced (Registry_Exist w r ref tag).
Proof.
  unfold exists_, coalesced. simpl.
  destruct (Registry_Exist w r ref tag) as [b [e|]]; reflexivity.
Qed.

Lemma Exists_snoc (w : World) (ref tag : string) (rs : list Registry) (r : Registry) :
  Exists w ref tag (rs ++ [r]) = <[URL r := exists_ w ref tag r]> (Exists w ref tag rs).
Proof. unfold Exists. now rewrite foldl_app. Qed.

(** The entry under a URL is the answer of the last registry with it. *)
Lemma Exists_lookup (w : World) (ref tag : string) (rs : list Registry) (u : string) :
  Exists w ref tag rs !! u
  = exists_ w ref tag <$> last (filter (fun r => URL r = u) rs).
Proof.
  induction rs as [|r rs IH] using rev_ind; [reflexivity |].
  rewrite Exists_snoc, filter_app.
  destruct (decide (URL r = u)) as [Hu | Hu].
  - rewrite (filter_cons_True _ r []) by exact Hu.
    rewrite filter_nil, last_snoc. subst u. now rewrite lookup_insert_eq.
  - rewrite (filter_cons_False _ r []) by exact Hu.
    rewrite filter_nil, app_nil_r, lookup_insert_ne by exact Hu. exact IH.
Qed.

Lemma filter_URL_absent (u : string) (l : list Registry) :
  u ∉ (URL <$> l) -> filter (fun r => URL r = u) l = [].
Proof.
  induction l as [|x l IH]; intros Hu; [reflexivity |].
  rewrite fmap_cons in Hu. apply not_elem_of_cons in Hu as [Hne Hl].
  rewrite filter_cons_False by congruence. auto.
Qed.

Lemma Exists_dom (w : World) (ref tag : string) (rs : list Registry) :
  dom (Exists w ref tag rs) = list_to_set (URL <$> rs).
Proof.
  induction rs as [|r rs IH] using rev_ind; [apply dom_empty_L |].
  rewrite Exists_snoc, dom_insert_L, IH, fmap_app.
  change (URL <$> [r]) with [URL r].
  rewrite list_to_set_snoc_L. apply union_comm_L.
Qed.

Lemma Exists_size (w : World) (ref tag : string) (rs : list Registry) :
  size (Exists w ref tag rs) <= length rs.
Proof.
  induction rs as [|r rs IH] using rev_ind.
  { unfold Exists. simpl. rewrite map_size_empty. lia. }
  rewrite Exists_snoc, length_app. simpl.
  pose proof (map_size_insert (URL r) (exists_ w ref tag r) (Exists w ref tag rs)) as Hs.
  destruct (Exists w ref tag rs !! URL r); simpl in Hs; unfold id in Hs; lia.
Qed.

(** With pairwise distinct URLs every registry has its own entry. *)
Lemma Exists_distinct_URLs (w : World) (ref tag : string) (rs : list Registry)
    (r : Registry) :
  NoDup (URL <$> rs) -> r ∈ rs ->
  Exists w ref tag rs !! URL r = Some (coalesced (Registry_Exist w r ref tag)).
Proof.
  intros Hnd Hr. apply list_elem_of_split in Hr as (l1 & l2 & ->).
  rewrite fmap_app, fmap_cons in Hnd.
  apply NoDup_app in Hnd as (_ & _ & Hnd). apply NoDup_cons in Hnd as [Hlast _].
  rewrite Exists_lookup, filter_app, filter_cons_True by reflexivity.
  rewrite (filter_URL_absent _ _ Hlast), last_snoc. simpl.
  now rewrite exists_coalesced.
Qed.

(** C4.  For every registry state, reference, tag and transport flag,
    [Exist] attempts the metadata fetch and answers true exactly when it
    succeeds: the boolean is true if and only if the reference parses, the
    credential store loads and [oras.Fetch], called with the given tag on the
    repository of that reference carrying the given transport flag and the
    credential client, returns no error.  The returned error is the first
    error met among the parse, the credential store and that fetch, so on
    every return path the boolean is true exactly when the returned error is
    nil; the boolean is a function of the mere presence of an error, so a
    connectivity error and a not-found error give the same boolean.
    [Registry.Exist] is [Exist] on the joined reference with the registry's
    transport flag. *)
Theorem Exist_true_iff_nil (w : World) (reference tag : string) (plainHTTP : bool)
    (r : Registry) (name : string) :
  (fst (Exist w reference tag plainHTTP) = true
   <-> exists ref cs,
         ParseReference reference = inr ref
         /\ NewStoreFromDocker = inr cs
         /\ oras_Fetch w {| Reference := ref; RepoPlainHTTP := plainHTTP;
                            Client := Some cs |} tag = None)
  /\ snd (Exist w reference tag plainHTTP)
     = match ParseReference reference with
       | inl err => Some err
       | inr ref =>
           match NewStoreFromDocker with
           | inl err => Some err
           | inr cs =>
               oras_Fetch w {| Reference := ref; RepoPlainHTTP := plainHTTP;
                               Client := Some cs |} tag
           end
       end
  /\ (fst (Exist w reference tag plainHTTP) = true
      <-> snd (Exist w reference tag plainHTTP) = None)
  /\ fst (Exist w reference tag plainHTTP) = isNil (snd (Exist w reference tag plainHTTP))
  /\ Registry_Exist w r name tag
     = Exist w (URL r +:+ "/" +:+ name) tag (PlainHTTP r).
Proof.
  set (joined := Exist w (URL r +:+ "/" +:+ name) tag (PlainHTTP r)).
  assert (Hjoined : Registry_Exist w r name tag = joined) by reflexivity.
  clearbody joined.
  unfold Exist, NewRepository, withClient, withPlainHTTP.
  destruct (ParseReference reference) as [e | ref]; cbn.
  { repeat split; try discriminate; try exact Hjoined.
    intros (ref & cs & [=] & _). }
  destruct NewStoreFromDocker as [e | cs] eqn:Hcs; cbn.
  { repeat split; try discriminate; try exact Hjoined.
    intros (ref' & cs' & _ & [=] & _). }
  destruct (oras_Fetch w _ tag) as [e |] eqn:Hf; cbn.
  - repeat split; try discriminate; try exact Hjoined.
    intros (ref' & cs' & [= <-] & [= <-] & Hf'). rewrite Hf in Hf'. discriminate.
  - repeat split; trivial.
    intros _. exists ref, cs. now rewrite Hf.
Qed.

(** C5.  When [Push] gets as far as the copy, the source connection uses
    plain HTTP exactly when the source URL contains [localhost] or [0.0.0.0],
    the destination connection uses plain HTTP exactly when the registry's
    [PlainHTTP] flag is set, and these are the connections handed to
    [oras.Copy]; the source flag is the same for every destination registry
    and the destination flag is the same for every source URL. *)
Theorem Push_transport_selection (w : World) (r : Registry)
    (sourceURL name tag : string) (arch : option string)
    (source target : Repository Ref CredStore) (opts : CopyOptions) :
  Push_connect r sourceURL name arch = inr (source, target, opts) ->
  (RepoPlainHTTP source = true <-> recognisedLocal sourceURL)
  /\ (RepoPlainHTTP target = true <-> PlainHTTP r = true)
  /\ Push w r sourceURL name tag arch
     = (let '(res, w') := oras_Copy w source tag (RemoteTarget target) tag opts in
        (match res with
         | inl err => (zeroDescriptor, Some err)
         | inr manifest => (manifest, None)
         end, w'))
  /\ (forall r' name' arch' source' target' opts',
        Push_connect r' sourceURL name' arch' = inr (source', target', opts') ->
        RepoPlainHTTP source' = RepoPlainHTTP source)
  /\ (forall sourceURL' name' arch' source' target' opts',
        Push_connect r sourceURL' name' arch' = inr (source', target', opts') ->
        RepoPlainHTTP target' = RepoPlainHTTP target).
Proof.
  assert (Hflags : forall r0 s0 n0 a0 src tgt o,
            Push_connect r0 s0 n0 a0 = inr (src, tgt, o) ->
            RepoPlainHTTP src
            = (strings.Contains s0 "localhost" || strings.Contains s0 "0.0.0.0")
            /\ RepoPlainHTTP tgt = PlainHTTP r0).
  { intros r0 s0 n0 a0 src tgt o. unfold Push_connect.
    destruct NewStoreFromDocker as [e | cs]; [discriminate |].
    destruct (NewRepository (strings.Join [s0; n0] "/")) as [e | s1]; [discriminate |].
    destruct (NewRepository (strings.Join [URL r0; n0] "/")) as [e | t1]; [discriminate |].
    destruct a0 as [a |]; [destruct (ParsePlatform a) as [e | v]; [discriminate |] |];
      intros [= <- <- <-]; split; reflexivity. }
  intros Hc. destruct (Hflags _ _ _ _ _ _ _ Hc) as [Hs Ht].
  split; [| split; [| split; [| split]]].
  - rewrite Hs, orb_true_iff. unfold recognisedLocal.
    now rewrite !Contains_occursIn.
  - now rewrite Ht.
  - unfold Push. rewrite Hc.
    destruct (oras_Copy w source tag (RemoteTarget target) tag opts) as [[e | d] w'];
      reflexivity.
  - intros r' name' arch' source' target' opts' Hc'.
    destruct (Hflags _ _ _ _ _ _ _ Hc') as [Hs' _]. now rewrite Hs, Hs'.
  - intros sourceURL' name' arch' source' target' opts' Hc'.
    destruct (Hflags _ _ _ _ _ _ _ Hc') as [_ Ht']. now rewrite Ht, Ht'.
Qed.

(** The connection [Fetch] resolves against is the destination connection
    of [Push]. *)
Lemma Push_target_is_Fetch_repo (r : Registry) (sourceURL name : string)
    (arch : option string) (source target : Repository Ref CredStore)
    (opts : CopyOptions) :
  Push_connect r sourceURL name arch = inr (source, target, opts) ->
  forall w tag,
    Fetch w r name tag
    = match Resolve w target tag with
      | inl err => (None, Some err)
      | inr d => (Some d, None)
      end.
Proof.
  unfold Push_connect, Fetch.
  destruct NewStoreFromDocker as [e | cs]; [discriminate |].
  destruct (NewRepository (strings.Join [sourceURL; name] "/")) as [e | s1];
    [discriminate |].
  destruct (NewRepository (strings.Join [URL r; name] "/")) as [e | t1];
    [discriminate |].
  destruct arch as [a |]; [destruct (ParsePlatform a) as [e | v]; [discriminate |] |];
    intros [= <- <- <-] w tag; reflexivity.
Qed.

(** C9.  Over a registry in which a tag copied to a destination repository
    resolves there to a descriptor with the digest of the copied one, a
    successful [Push] is followed by a successful [Fetch] of the same name
    and tag against the same registry, and the fetched descriptor has the
    digest of the descriptor [Push] returned. *)
Theorem Push_then_Fetch_same_digest (w w' : World) (r : Registry)
    (sourceURL name tag : string) (arch : option string) (d : Descriptor) :
  (forall w0 src dst opts d0 w1,
      oras_Copy w0 src tag (RemoteTarget dst) tag opts = (inr d0, w1) ->
      exists d1, Resolve w1 dst tag = inr d1 /\ Digest d1 = Digest d0) ->
  Push w r sourceURL name tag arch = ((d, None), w') ->
  exists d', Fetch w' r name tag = (Some d', None) /\ Digest d' = Digest d.
Proof.
  intros Hcontract. unfold Push.
  destruct (Push_connect r sourceURL name arch) as [e | [[source target] opts]] eqn:Hc;
    [discriminate |].
  destruct (oras_Copy w source tag (RemoteTarget target) tag opts)
    as [[e | manifest] w1] eqn:Hcopy; [discriminate |].
  intros [= -> ->].
  destruct (Hcontract _ _ _ _ _ _ Hcopy) as (d1 & Hres & Hd).
  exists d1. split; [| exact Hd].
  rewrite (Push_target_is_Fetch_repo _ _ _ _ _ _ _ Hc), Hres. reflexivity.
Qed.

(** C10.  The map returned by [Exists] is keyed by URL: its keys are the
    URLs of the registries given, it has at most one entry per registry
    given, and the entry under a URL is the answer of the last registry with
    that URL, so that registries sharing a URL share one entry holding the
    later probe. *)
Theorem Exists_keyed_by_URL (w : World) (ref tag : string)
    (registries : list Registry) (u : string) :
  dom (Exists w ref tag registries) = list_to_set (URL <$> registries)
  /\ size (Exists w ref tag registries) <= length registries
  /\ Exists w ref tag registries !! u
     = (fun r => coalesced (Registry_Exist w r ref tag))
       <$> last (filter (fun r => URL r = u) registries).
Proof.
  split; [apply Exists_dom | split; [apply Exists_size |]].
  rewrite Exists_lookup.
  destruct (last _) as [r |]; simpl; [| reflexivity].
  now rewrite exists_coalesced.
Qed.

(** C2 (amended).  [Exists] always returns a map, never an error.  For a
    registry whose URL no later registry of the list shares, the entry under
    its URL is [false] when its probe returned an error and the boolean of
    its probe otherwise. *)
Theorem Exists_coalesces_probe_errors (w : World) (ref tag : string)
    (l1 l2 : list Registry) (r : Registry) :
  URL r ∉ (URL <$> l2) ->
  Exists w ref tag (l1 ++ r :: l2) !! URL r
  = Some (if isNil (snd (Registry_Exist w r ref tag))
          then fst (Registry_Exist w r ref tag)
          else false).
Proof.
  intros Hlast. rewrite Exists_lookup, filter_app, filter_cons_True by reflexivity.
  rewrite (filter_URL_absent _ _ Hlast), last_snoc. simpl. rewrite exists_coalesced.
  unfold coalesced. destruct (Registry_Exist w r ref tag) as [b [e |]]; reflexivity.
Qed.

End RegistryFacts.

(** ** The registry client on the concrete world *)

Section RegistryExamples.

Import registry.

Local Existing Instance demo.transport.

(** In the concrete world a copied tag resolves at its destination. *)
Lemma demo_copy_then_resolve (tag : string) (w0 : demo.World)
    (src dst : Repository string unit) (opts : CopyOptions)
    (d0 : Descriptor) (w1 : demo.World) :
  oras_Copy w0 src tag (RemoteTarget dst) tag opts = (inr d0, w1) ->
  exists d1, Resolve w1 dst tag = inr d1 /\ Digest d1 = Digest d0.
Proof.
  simpl. destruct (demo.reachable w0 src); [| discriminate].
  destruct (demo.lookupManifest w0 (Reference src) tag) as [e | d]; [discriminate |].
  destruct (demo.reachable w0 dst) eqn:Hr; [| discriminate].
  intros [= <- <-]. exists d. split; [| reflexivity].
  unfold demo.reachable in *. simpl. rewrite Hr.
  unfold demo.lookupManifest. simpl. now rewrite lookup_insert_eq.
Qed.

(** A failed TLS handshake and an unknown manifest give the same boolean
    with different errors. *)
Example Exist_same_boolean_two_errors :
  Exist demo.world "mirror.example/app" "1.0" false
  = (false, Some "http: server gave HTTP response to HTTPS client")
  /\ Exist demo.world "empty.example/app" "1.0" false
     = (false, Some "manifest unknown")
  /\ Exist demo.world "upstream.example/app" "1.0" false = (true, None).
Proof. repeat split; vm_compute; reflexivity. Qed.

Lemma Push_transport_selection_witness :
  Push_connect demo.target "localhost:5000" "app" None
  = inr (demo.localSource, demo.targetRepo, DefaultCopyOptions)
  /\ (RepoPlainHTTP demo.localSource = true <-> recognisedLocal "localhost:5000")
  /\ (RepoPlainHTTP demo.targetRepo = true <-> PlainHTTP demo.target = true).
Proof.
  assert (Hc : Push_connect demo.target "localhost:5000" "app" None
               = inr (demo.localSource, demo.targetRepo, DefaultCopyOptions))
    by reflexivity.
  split; [exact Hc |].
  destruct (Push_transport_selection (T := demo.transport) demo.world demo.target "localhost:5000"
              "app" "1.0" None _ _ _ Hc) as (Hs & Ht & _).
  split; [exact Hs | exact Ht].
Defined.

Lemma Push_then_Fetch_same_digest_witness :
  Push demo.world demo.target "upstream.example" "app" "1.0" None
  = ((demo.appManifest, None), demo.worldAfterPush)
  /\ exists d', Fetch demo.worldAfterPush demo.target "app" "1.0" = (Some d', None)
                /\ Digest d' = Digest demo.appManifest.
Proof.
  assert (Hp : Push demo.world demo.target "upstream.example" "app" "1.0" None
               = ((demo.appManifest, None), demo.worldAfterPush))
    by (vm_compute; reflexivity).
  split; [exact Hp |].
  exact (Push_then_Fetch_same_digest (T := demo.transport) demo.world demo.worldAfterPush demo.target
           "upstream.example" "app" "1.0" None demo.appManifest
           (demo_copy_then_resolve "1.0") Hp).
Defined.

Lemma Exists_coalesces_probe_errors_witness :
  (registry.URL demo.mirrorTLS ∉ (registry.URL <$> [demo.empty]))
  /\ (Exists demo.world "app" "1.0" ([demo.upstream] ++ demo.mirrorTLS :: [demo.empty])
      !! registry.URL demo.mirrorTLS
      = Some (if isNil (snd (Registry_Exist demo.world demo.mirrorTLS "app" "1.0"))
              then fst (Registry_Exist demo.world demo.mirrorTLS "app" "1.0")
              else false)).
Proof.
  assert (Hlast : registry.URL demo.mirrorTLS ∉ (registry.URL <$> [demo.empty])).
  { apply not_elem_of_cons. split; [discriminate | apply not_elem_of_nil]. }
  split; [exact Hlast |].
  exact (Exists_coalesces_probe_errors (T := demo.transport) demo.world "app" "1.0"
           [demo.upstream] [demo.empty] demo.mirrorTLS Hlast).
Defined.

(** C2 (as stated) fails.  Two configured registries share the URL
    [mirror.example]; the first is probed over TLS and its probe returns an
    error, the second is probed over plain HTTP and finds the image.  The
    entry under the URL of the first is [true], not [false]. *)
Lemma Exists_error_entry_overwritten :
  ~ probe_errors_become_false demo.world "app" "1.0"
      [demo.mirrorTLS; demo.upstream; demo.mirrorPlain].
Proof.
  intros Hclaim.
  assert (Hin : demo.mirrorTLS ∈ [demo.mirrorTLS; demo.upstream; demo.mirrorPlain])
    by apply list_elem_of_here.
  assert (Herr : snd (Registry_Exist demo.world demo.mirrorTLS "app" "1.0") <> None)
    by (vm_compute; discriminate).
  specialize (Hclaim _ Hin Herr). vm_compute in Hclaim. discriminate Hclaim.
Qed.

End RegistryExamples.

(** ** The image branch of [Program] *)

Section PipelineFacts.

Import internal.

Context {E : Env}.

Lemma bind_inr {A B} (m : M A) (f : A -> M B) (tr : list Event) (b : B) :
  bind m f = (tr, inr b) ->
  exists tr1 a tr2, m = (tr1, inr a) /\ f a = (tr2, inr b) /\ tr = tr1 ++ tr2.
Proof.
  unfold bind. destruct m as [tr1 [ab | a]]; [discriminate |].
  destruct (f a) as [tr2 r] eqn:Hf. intros [= <- ->].
  now exists tr1, a, tr2.
Qed.

Lemma check_inr {A} (r : A * option error) (tr : list Event) (a : A) :
  check r = (tr, inr a) -> r = (a, None) /\ tr = [].
Proof.
  destruct r as [a' [e |]]; simpl; [discriminate |].
  now intros [= <- <-].
Qed.

Lemma scan_inr (st : Stage) (k : nat) (ref : string) (tr : list Event) (r : Report) :
  scan st k ref = (tr, inr r) -> Scan st k ref = inr r /\ tr = [EvScan st ref].
Proof.
  unfold scan. destruct (Scan st k ref) as [e | r']; [discriminate |].
  now intros [= <- <-].
Qed.

Lemma marshal_inr (r : Report) (tr : list Event) (b : Bytes) :
  marshal r = (tr, inr b) -> MarshalIndent r = inr b /\ tr = [].
Proof.
  unfold marshal. destruct (MarshalIndent r) as [e | b']; simpl; [discriminate |].
  now intros [= <- <-].
Qed.

Lemma writeFile_inr (st : Stage) (k : nat) (fileName : string) (b : Bytes)
    (tr : list Event) (u : unit) :
  writeFile st k fileName b = (tr, inr u) ->
  WriteFile st k fileName b = None /\ tr = [EvWriteFile fileName b].
Proof.
  unfold writeFile. destruct (WriteFile st k fileName b); [discriminate |].
  now intros [= <- _].
Qed.

Lemma classify_cons (cfg : ImportSection) (k : nat) (i : Image)
    (rest : list Image) (patch push : list ImagePtr) :
  classify cfg k (i :: rest) patch push
  = let p := {| addr := k; pointee := i |} in
    match Patch i with
    | Some false =>
        bind (check (Image_String i)) (fun ref =>
        classify cfg (S k) rest patch (push ++ [p]))
    | _ =>
        bind (check (Image_String i)) (fun ref =>
        bind (scan Prescan k ref) (fun r =>
        let '(patch', push') :=
          if SupportedOS (Metadata_OS r)
          then if ContainsOsPkgs (Results r)
               then (patch ++ [p], push)
               else (patch, push ++ [p])
          else (patch, push ++ [p]) in
        bind (marshal r) (fun b =>
        bind (writeFile Prescan k
                (scanReportFile (Folder (Reports (Output (Copacetic cfg))))
                   "prescan-" i) b) (fun _ =>
        classify cfg (S k) rest patch' push'))))
    end.
Proof. reflexivity. Qed.

Lemma classify_ok (cfg : ImportSection) (imgs : list Image) :
  forall k patch push tr patch' push',
    classify cfg k imgs patch push = (tr, inr (patch', push')) ->
    patch' = patch ++ filter (fun p => wantsPatch (addr p) (pointee p) = true)
                        (pointers k imgs)
    /\ push' = push ++ filter (fun p => ~ wantsPatch (addr p) (pointee p) = true)
                         (pointers k imgs)
    /\ tr = concat (prescanEvents cfg <$> pointers k imgs)
    /\ Forall iterationOk (pointers k imgs).
Proof.
  induction imgs as [|i rest IH]; intros k patch push tr patch' push' Hrun.
  - injection Hrun as <- <- <-. simpl. now rewrite !app_nil_r.
  - rewrite classify_cons in Hrun. cbv zeta in Hrun.
    set (p := {| addr := k; pointee := i |}) in *.
    destruct (Patch i) as [[|]|] eqn:HP; cbv beta iota in Hrun.
    2: { (* explicitly excluded: no scan, no report *)
      apply bind_inr in Hrun as (tr1 & ref & tr2 & Hchk & Hrest & ->).
      apply check_inr in Hchk as [Hstr ->].
      apply IH in Hrest as (-> & -> & -> & Hall).
      assert (Hw : wantsPatch (addr p) (pointee p) = false)
        by (unfold wantsPatch; simpl; now rewrite HP).
      assert (Hev : prescanEvents cfg p = [])
        by (unfold prescanEvents; simpl; now rewrite HP).
      simpl pointers. fold p.
      rewrite filter_cons_False by (rewrite Hw; discriminate).
      rewrite filter_cons_True by (rewrite Hw; discriminate).
      rewrite <- app_assoc, fmap_cons, Hev. simpl.
      repeat split; try reflexivity.
      constructor; [| exact Hall].
      split; simpl; [now rewrite Hstr | congruence]. }
    (* unset or explicitly included: scan, classify, write the report *)
    all: apply bind_inr in Hrun as (tr1 & ref & tr2 & Hchk & Hrun & ->);
      apply check_inr in Hchk as [Hstr ->];
      apply bind_inr in Hrun as (tr1 & r & tr3 & Hscan & Hrun & ->);
      apply scan_inr in Hscan as [Hscan ->];
      assert (Href : fst (Image_String i) = ref) by (now rewrite Hstr);
      assert (Hw : wantsPatch (addr p) (pointee p)
                   = SupportedOS (Metadata_OS r) && ContainsOsPkgs (Results r))
        by (unfold wantsPatch; simpl; now rewrite HP, Href, Hscan);
      destruct (if SupportedOS (Metadata_OS r)
                then if ContainsOsPkgs (Results r)
                     then (patch ++ [p], push)
                     else (patch, push ++ [p])
                else (patch, push ++ [p])) as [pa pu] eqn:Hsel;
      cbv beta iota in Hrun;
      apply bind_inr in Hrun as (tr1 & b & tr4 & Hm & Hrun & ->);
      apply marshal_inr in Hm as [Hm ->];
      apply bind_inr in Hrun as (tr1 & u & tr5 & Hwf & Hrest & ->);
      apply writeFile_inr in Hwf as [Hwf ->];
      assert (Hev : prescanEvents cfg p
                = [EvScan Prescan ref;
                   EvWriteFile (scanReportFile (Folder (Reports (Output (Copacetic cfg))))
                                  "prescan-" i) b])
        by (unfold prescanEvents; simpl; now rewrite HP, Href, Hscan, Hm);
      assert (Hok : iterationOk p)
        by (split; simpl; [now rewrite Hstr | intros _; exists r, b; now rewrite Href]);
      apply IH in Hrest as (-> & -> & -> & Hall);
      simpl pointers; fold p; rewrite fmap_cons, Hev; simpl concat;
      (destruct (SupportedOS (Metadata_OS r)) eqn:Hsup;
        [destruct (ContainsOsPkgs (Results r)) eqn:Hpk |]);
      cbn [andb] in Hw; injection Hsel as <- <-;
      [ rewrite filter_cons_True by exact Hw;
        rewrite filter_cons_False by (intros Hn; now apply Hn)
      | rewrite filter_cons_False by (rewrite Hw; discriminate);
        rewrite filter_cons_True by (rewrite Hw; discriminate)
      | rewrite filter_cons_False by (rewrite Hw; discriminate);
        rewrite filter_cons_True by (rewrite Hw; discriminate) ];
      rewrite <- app_assoc; simpl;
      (repeat split; try reflexivity); now constructor.
Qed.

Lemma pointers_addr (imgs : list Image) :
  forall k, addr <$> pointers k imgs = seq k (length imgs).
Proof.
  induction imgs as [|i rest IH]; intros k; [reflexivity |].
  simpl. now rewrite IH.
Qed.

Lemma pointers_lookup (imgs : list Image) :
  forall k j i, imgs !! j = Some i ->
    pointers k imgs !! j = Some {| addr := k + j; pointee := i |}.
Proof.
  induction imgs as [|x rest IH]; intros k j i Hj; [discriminate |].
  destruct j as [|j]; simpl in *.
  - injection Hj as ->. now rewrite Nat.add_0_r.
  - rewrite (IH (S k) j i Hj). do 2 f_equal. lia.
Qed.

Lemma pointers_NoDup (k : nat) (imgs : list Image) :
  NoDup (addr <$> pointers k imgs).
Proof. rewrite pointers_addr. apply NoDup_seq. Qed.

(** The two filters of the classification split a list. *)
Lemma split_by_decision (l : list ImagePtr) :
  filter (fun p => wantsPatch (addr p) (pointee p) = true) l
  ++ filter (fun p => ~ wantsPatch (addr p) (pointee p) = true) l
  ≡ₚ l.
Proof. apply (filter_app_complement _ l). Qed.

Lemma classify_partition (cfg : ImportSection) (imgs : list Image)
    (tr : list Event) (patch push : list ImagePtr) :
  classify cfg 0 imgs [] [] = (tr, inr (patch, push)) ->
  patch ++ push ≡ₚ pointers 0 imgs.
Proof.
  intros Hrun. apply classify_ok in Hrun as (-> & -> & _).
  simpl. apply split_by_decision.
Qed.

Lemma classified_NoDup (cfg : ImportSection) (imgs : list Image)
    (tr : list Event) (patch push : list ImagePtr) :
  classify cfg 0 imgs [] [] = (tr, inr (patch, push)) ->
  NoDup (addr <$> (patch ++ push)).
Proof.
  intros Hrun. rewrite (classify_partition _ _ _ _ _ Hrun).
  apply pointers_NoDup.
Qed.

(** The path maps hold, under each pointer, the three paths derived from
    the image it points to. *)
Lemma foldl_addPaths_lookup (cfg : ImportSection) (l : list ImagePtr) :
  forall m0 p, NoDup (addr <$> l) -> p ∈ l ->
    reportFilePaths (foldl (addPaths cfg) m0 l) !! addr p
    = Some (prescanPath cfg (pointee p))
    /\ reportPostFilePaths (foldl (addPaths cfg) m0 l) !! addr p
       = Some (postscanPath cfg (pointee p))
    /\ outFilePaths (foldl (addPaths cfg) m0 l) !! addr p
       = Some (archivePath cfg (pointee p)).
Proof.
  induction l as [|x l IH] using rev_ind; intros m0 p Hnd Hin.
  - now apply elem_of_nil in Hin.
  - rewrite foldl_app. simpl.
    rewrite fmap_app in Hnd. apply NoDup_app in Hnd as (Hnd & Hdisj & _).
    apply elem_of_app in Hin as [Hin | Hin].
    + assert (Hne : addr x <> addr p).
      { intros Heq. apply (Hdisj (addr p)).
        - now apply list_elem_of_fmap_2.
        - rewrite <- Heq. apply list_elem_of_here. }
      rewrite !lookup_insert_ne by exact Hne. now apply IH.
    + apply list_elem_of_singleton in Hin as ->.
      now rewrite !lookup_insert_eq.
Qed.

Lemma bind_trace_Forall {A B} (Q : Event -> Prop) (m : M A) (f : A -> M B) :
  Forall Q (fst m) -> (forall a, Forall Q (fst (f a))) ->
  Forall Q (fst (bind m f)).
Proof.
  intros Hm Hf. unfold bind. destruct m as [tr [ab | a]]; [exact Hm |].
  specialize (Hf a). destruct (f a) as [tr' r]. simpl in *.
  apply Forall_app. now split.
Qed.

Lemma check_trace {A} (r : A * option error) : fst (check r) = [].
Proof. now destruct r as [a [e |]]. Qed.

Lemma marshal_trace (r : Report) : fst (marshal r) = [].
Proof. unfold marshal. now destruct (MarshalIndent r). Qed.

Lemma classify_no_patcher (cfg : ImportSection) (Imgs : list ImagePtr)
    (imgs : list Image) :
  forall k patch push,
    Forall (patcherRunsWithin Imgs) (fst (classify cfg k imgs patch push)).
Proof.
  induction imgs as [|i rest IH]; intros k patch push; [constructor |].
  rewrite classify_cons. cbv zeta.
  assert (Hscanned : forall pa pu,
    Forall (patcherRunsWithin Imgs)
      (fst (bind (check (Image_String i)) (fun ref =>
            bind (scan Prescan k ref) (fun r =>
            let '(patch', push') :=
              if SupportedOS (Metadata_OS r)
              then if ContainsOsPkgs (Results r)
                   then (patch ++ [pa], push)
                   else (patch, push ++ [pu])
              else (patch, push ++ [pu]) in
            bind (marshal r) (fun b =>
            bind (writeFile Prescan k
                    (scanReportFile (Folder (Reports (Output (Copacetic cfg))))
                       "prescan-" i) b) (fun _ =>
            classify cfg (S k) rest patch' push'))))))).
  { intros pa pu.
    apply bind_trace_Forall; [rewrite check_trace; constructor |]. intros ref.
    apply bind_trace_Forall; [repeat constructor |]. intros r.
    destruct (SupportedOS (Metadata_OS r)); [destruct (ContainsOsPkgs (Results r)) |];
      (apply bind_trace_Forall; [rewrite marshal_trace; constructor |]; intros b;
       apply bind_trace_Forall; [repeat constructor |]; intros _; apply IH). }
  destruct (Patch i) as [[|]|]; [apply Hscanned | | apply Hscanned].
  apply bind_trace_Forall; [rewrite check_trace; constructor |]. intros ref. apply IH.
Qed.

Lemma rescan_cons (out pre : string) (k : nat) (i : Image) (rest : list Image) :
  rescan out pre k (i :: rest)
  = bind (scan Postscan k (fst (Image_String i))) (fun r =>
    bind (marshal r) (fun b =>
    bind (writeFile Postscan k (scanReportFile out pre i) b) (fun _ =>
    rescan out pre (S k) rest))).
Proof. reflexivity. Qed.

Lemma rescan_no_patcher (Imgs : list ImagePtr) (out pre : string)
    (imgs : list Image) :
  forall k, Forall (patcherRunsWithin Imgs) (fst (rescan out pre k imgs)).
Proof.
  induction imgs as [|i rest IH]; intros k; [constructor |].
  rewrite rescan_cons.
  apply bind_trace_Forall; [repeat constructor |]. intros r.
  apply bind_trace_Forall; [rewrite marshal_trace; constructor |]. intros b.
  apply bind_trace_Forall; [repeat constructor |]. intros _. apply IH.
Qed.

Lemma rescan_ok (cfg : ImportSection) (imgs : list Image) :
  forall k tr u,
    rescan (Folder (Reports (Output (Copacetic cfg)))) "postscan-" k imgs
    = (tr, inr u) ->
    tr = concat (postscanEvents cfg <$> pointers k imgs)
    /\ Forall rescanOk (pointers k imgs).
Proof.
  induction imgs as [|i rest IH]; intros k tr u Hrun.
  - injection Hrun as <-. split; [reflexivity | constructor].
  - rewrite rescan_cons in Hrun.
    apply bind_inr in Hrun as (tr1 & r & tr2 & Hscan & Hrun & ->).
    apply scan_inr in Hscan as [Hscan ->].
    apply bind_inr in Hrun as (tr1 & b & tr3 & Hm & Hrun & ->).
    apply marshal_inr in Hm as [Hm ->].
    apply bind_inr in Hrun as (tr1 & u' & tr4 & Hwf & Hrest & ->).
    apply writeFile_inr in Hwf as [Hwf ->].
    apply IH in Hrest as [-> Hall].
    simpl pointers. rewrite fmap_cons. simpl concat.
    unfold postscanEvents at 1. simpl. rewrite Hscan, Hm.
    split; [reflexivity |].
    constructor; [| exact Hall]. exists r, b. now split.
Qed.

Lemma PatchOption_Run_cons (ignoreErrors : bool) (i : ImagePtr)
    (rest : list ImagePtr) (reports outs : gmap nat string) :
  PatchOption_Run ignoreErrors (i :: rest) reports outs
  = bind ([EvPatch i (pathOf reports i) (pathOf outs i)],
          match Patcher i (pathOf reports i) (pathOf outs i) with
          | Some e => if ignoreErrors then inr tt else inl (Err e)
          | None => inr tt
          end)
      (fun _ => PatchOption_Run ignoreErrors rest reports outs).
Proof. reflexivity. Qed.

Lemma PatchOption_Run_within (ignoreErrors : bool) (reports outs : gmap nat string)
    (Imgs' Imgs : list ImagePtr) :
  (forall i, i ∈ Imgs -> i ∈ Imgs') ->
  Forall (patcherRunsWithin Imgs')
    (fst (PatchOption_Run ignoreErrors Imgs reports outs)).
Proof.
  induction Imgs as [|i rest IH]; intros Hsub; [constructor |].
  rewrite PatchOption_Run_cons. apply bind_trace_Forall.
  - repeat constructor. simpl. apply Hsub, list_elem_of_here.
  - intros _. apply IH. intros j Hj. apply Hsub. now apply list_elem_of_further.
Qed.

Lemma cleanup_no_patcher (cfg : ImportSection) (m : ArtifactPaths)
    (Imgs : list ImagePtr) :
  Forall (patcherRunsWithin Imgs) (cleanup cfg m).
Proof.
  assert (Hrm : forall g, Forall (patcherRunsWithin Imgs) (removeValues g)).
  { intros g. unfold removeValues. apply Forall_fmap, Forall_forall.
    now intros kv _. }
  unfold cleanup.
  destruct (Clean (Reports (Output (Copacetic cfg))));
    repeat (apply Forall_app; split); auto; constructor.
Qed.

Lemma afterDefer_patcher (cfg : ImportSection) (imgs : list Image)
    (patch push : list ImagePtr) (m : ArtifactPaths) :
  Forall (patcherRunsWithin patch) (fst (afterDefer cfg imgs patch push m)).
Proof.
  unfold afterDefer.
  apply bind_trace_Forall; [repeat constructor |]. intros _.
  apply bind_trace_Forall; [now apply PatchOption_Run_within |]. intros _.
  apply bind_trace_Forall; [apply rescan_no_patcher |]. intros _.
  unfold sign. destruct (CosignEnabled (Cosign cfg)); [| constructor].
  destruct (KeyRefPass (Cosign cfg)); repeat constructor.
Qed.

(** The patcher is only ever run for the images of [patch]. *)
Lemma Program_copacetic_patcher (cfg : ImportSection) (imgs : list Image)
    (tr : list Event) (patch push : list ImagePtr) :
  classify cfg 0 imgs [] [] = (tr, inr (patch, push)) ->
  Forall (patcherRunsWithin patch) (fst (Program_copacetic cfg imgs)).
Proof.
  intros Hrun.
  pose proof (classify_no_patcher cfg patch imgs 0 [] []) as Hc.
  unfold Program_copacetic. rewrite Hrun in *. cbv zeta. cbn [fst] in Hc.
  pose proof (afterDefer_patcher cfg imgs patch push (artifactPaths cfg patch push)) as Ha.
  destruct (afterDefer cfg imgs patch push (artifactPaths cfg patch push)) as [tr' r].
  cbn [fst] in *.
  apply Forall_app; split; [exact Hc |].
  apply Forall_app; split; [exact Ha | apply cleanup_no_patcher].
Qed.

Lemma sign_no_patcher (cfg : ImportSection) (Imgs Imgs' : list ImagePtr) :
  Forall (patcherRunsWithin Imgs') (fst (sign cfg Imgs)).
Proof.
  unfold sign. destruct (CosignEnabled (Cosign cfg)); [| constructor].
  destruct (KeyRefPass (Cosign cfg)); repeat constructor.
Qed.

Lemma wantsPatch_table (k : nat) (i : Image) (r : Report) :
  Scan Prescan k (fst (Image_String i)) = inr r ->
  wantsPatch k i = true
  <-> table (Patch i) (SupportedOS (Metadata_OS r)) (ContainsOsPkgs (Results r))
      = PatchThenPush.
Proof.
  intros Hscan. unfold wantsPatch, table. rewrite Hscan.
  destruct (Patch i) as [[|]|];
    destruct (SupportedOS (Metadata_OS r)), (ContainsOsPkgs (Results r));
    simpl; split; congruence.
Qed.

(** The file names of the scanning loops are the entries of the path
    maps. *)
Lemma scanReportFile_paths (cfg : ImportSection) (i : Image) :
  scanReportFile (Folder (Reports (Output (Copacetic cfg)))) "prescan-" i
  = prescanPath cfg i
  /\ scanReportFile (Folder (Reports (Output (Copacetic cfg)))) "postscan-" i
     = postscanPath cfg i.
Proof.
  unfold scanReportFile, prescanPath, postscanPath, Sprintf_name_tag.
  split; f_equal;
    match goal with
    | |- _ = strings.ReplaceAll (?pre +:+ ?rest) _ _ =>
        rewrite (ReplaceAll_slash_append pre rest)
    end; reflexivity.
Qed.

(** C1.  When the classification loop completes, the image at every
    position of the batch has been classified by the table: an explicitly
    excluded image is in [push] and not in [patch], whatever a scan would
    say; any other image was scanned, and it is in [patch] exactly when the
    scanned OS is supported and the findings contain OS-package
    vulnerabilities, and in [push] otherwise; and for an image of [push] the
    patcher is never run, so no archive is written for it in the whole
    run. *)
Theorem classification_follows_table (cfg : ImportSection) (imgs : list Image)
    (tr : list Event) (patch push : list ImagePtr) (k : nat) (i : Image) :
  classify cfg 0 imgs [] [] = (tr, inr (patch, push)) ->
  imgs !! k = Some i ->
  (Patch i = Some false ->
   {| addr := k; pointee := i |} ∈ push /\ {| addr := k; pointee := i |} ∉ patch)
  /\ (Patch i <> Some false ->
      exists r, Scan Prescan k (fst (Image_String i)) = inr r /\
        match table (Patch i) (SupportedOS (Metadata_OS r))
                (ContainsOsPkgs (Results r)) with
        | PushOnly =>
            {| addr := k; pointee := i |} ∈ push
            /\ {| addr := k; pointee := i |} ∉ patch
        | PatchThenPush =>
            {| addr := k; pointee := i |} ∈ patch
            /\ {| addr := k; pointee := i |} ∉ push
        end)
  /\ ({| addr := k; pointee := i |} ∈ push ->
      forall report out,
        EvPatch {| addr := k; pointee := i |} report out
        ∉ fst (Program_copacetic cfg imgs)).
Proof.
  intros Hrun Hk. set (p := {| addr := k; pointee := i |}).
  pose proof (Program_copacetic_patcher _ _ _ _ _ Hrun) as Hpatcher.
  apply classify_ok in Hrun as (-> & -> & _ & Hall).
  rewrite !app_nil_l in *.
  assert (Hin : p ∈ pointers 0 imgs).
  { apply (list_elem_of_lookup_2 _ k). now rewrite (pointers_lookup _ 0 k i Hk). }
  assert (Hok : iterationOk p) by (rewrite Forall_forall in Hall; now apply Hall).
  split; [| split].
  - intros HP. rewrite !list_elem_of_filter.
    assert (Hw : wantsPatch (addr p) (pointee p) = false)
      by (unfold wantsPatch; simpl; now rewrite HP).
    split; [split; [rewrite Hw; discriminate | exact Hin] |].
    intros [Hp _]. congruence.
  - intros HP. destruct Hok as [_ Hok]. destruct (Hok HP) as (r & b & Hscan & _).
    exists r. split; [exact Hscan |].
    pose proof (wantsPatch_table k i r Hscan) as Ht.
    destruct (table (Patch i) (SupportedOS (Metadata_OS r)) (ContainsOsPkgs (Results r))).
    + assert (Hw : wantsPatch (addr p) (pointee p) <> true)
        by (intros Hw; apply Ht in Hw; discriminate).
      rewrite !list_elem_of_filter. split; [now split | now intros [Hp _]].
    + assert (Hw : wantsPatch (addr p) (pointee p) = true) by now apply Ht.
      rewrite !list_elem_of_filter. split; [now split | now intros [Hp _]].
  - rewrite list_elem_of_filter. intros [Hw _] report out Hev.
    rewrite Forall_forall in Hpatcher. specialize (Hpatcher _ Hev). simpl in Hpatcher.
    apply list_elem_of_filter in Hpatcher as [Hp _]. now apply Hw.
Qed.

(** C3 (amended).  When the classification loop completes, every image of
    the batch is in exactly one of [patch] and [push], once.  The three
    artifact paths are derived for every image of either collection, whatever
    its decision.  A prescan report is written for every image that was
    scanned, whatever its decision, and for no explicitly excluded image; the
    patcher is run only for images of [patch]. *)
Theorem classification_partitions (cfg : ImportSection) (imgs : list Image)
    (tr : list Event) (patch push : list ImagePtr) :
  classify cfg 0 imgs [] [] = (tr, inr (patch, push)) ->
  patch ++ push ≡ₚ pointers 0 imgs
  /\ (forall p, p ∈ pointers 0 imgs ->
        (p ∈ patch /\ p ∉ push) \/ (p ∈ push /\ p ∉ patch))
  /\ (forall p, p ∈ patch ++ push ->
        reportFilePaths (artifactPaths cfg patch push) !! addr p
        = Some (prescanPath cfg (pointee p))
        /\ reportPostFilePaths (artifactPaths cfg patch push) !! addr p
           = Some (postscanPath cfg (pointee p))
        /\ outFilePaths (artifactPaths cfg patch push) !! addr p
           = Some (archivePath cfg (pointee p)))
  /\ tr = concat (prescanEvents cfg <$> pointers 0 imgs)
  /\ Forall (patcherRunsWithin patch) (fst (Program_copacetic cfg imgs)).
Proof.
  intros Hrun.
  pose proof (classify_partition _ _ _ _ _ Hrun) as Hperm.
  pose proof (classified_NoDup _ _ _ _ _ Hrun) as Hnd.
  pose proof (Program_copacetic_patcher _ _ _ _ _ Hrun) as Hpatcher.
  split; [exact Hperm | split; [| split; [| split; [| exact Hpatcher]]]].
  - intros p Hp. rewrite <- Hperm in Hp.
    apply NoDup_fmap_1, NoDup_app in Hnd as (_ & Hdisj & _).
    apply elem_of_app in Hp as [Hp | Hp].
    + left. split; [exact Hp | now apply Hdisj].
    + right. split; [exact Hp |]. intros Hp'. now apply (Hdisj p).
  - intros p Hp. unfold artifactPaths. now apply foldl_addPaths_lookup.
  - now apply classify_ok in Hrun as (_ & _ & -> & _).
Qed.

(** C7 (amended).  When the patch-enabled branch returns without error, its
    trace contains, after every run of the patcher, the rescan of every image
    of the batch in order, whatever its decision: each image is scanned again
    and the report is written at its postscan path. *)
Theorem rescan_covers_every_image (cfg : ImportSection) (imgs : list Image)
    (tr : list Event) :
  Program_copacetic cfg imgs = (tr, Returned None) ->
  (exists tr_before tr_after,
      tr = tr_before ++ concat (postscanEvents cfg <$> pointers 0 imgs) ++ tr_after
      /\ Forall (patcherRunsWithin []) tr_after)
  /\ (forall k i, imgs !! k = Some i ->
        exists r b,
          Scan Postscan k (fst (Image_String i)) = inr r
          /\ MarshalIndent r = inr b
          /\ postscanEvents cfg {| addr := k; pointee := i |}
             = [EvScan Postscan (fst (Image_String i));
                EvWriteFile (postscanPath cfg i) b]).
Proof.
  unfold Program_copacetic.
  destruct (classify cfg 0 imgs [] []) as [trc [ab | [patch push]]] eqn:Hc.
  { destruct ab; discriminate. }
  cbv zeta.
  destruct (afterDefer cfg imgs patch push (artifactPaths cfg patch push))
    as [tr' [ab | u]] eqn:Ha; [destruct ab; discriminate |].
  intros [= <-].
  unfold afterDefer in Ha.
  apply bind_inr in Ha as (tri & ? & tr1 & _ & Ha & ->).
  apply bind_inr in Ha as (trp & ? & tr2 & _ & Ha & ->).
  apply bind_inr in Ha as (trr & ? & trs & Hres & Hsign & ->).
  apply rescan_ok in Hres as [-> Hall].
  split.
  - exists (trc ++ tri ++ trp), (trs ++ cleanup cfg (artifactPaths cfg patch push)).
    split; [now rewrite <- !app_assoc |].
    apply Forall_app. split; [| apply cleanup_no_patcher].
    pose proof (sign_no_patcher cfg (patch ++ push) []) as Hs.
    now rewrite Hsign in Hs.
  - intros k i Hk.
    assert (Hin : {| addr := k; pointee := i |} ∈ pointers 0 imgs).
    { apply (list_elem_of_lookup_2 _ k). now rewrite (pointers_lookup _ 0 k i Hk). }
    rewrite Forall_forall in Hall. destruct (Hall _ Hin) as (r & b & Hscan & Hm).
    simpl in Hscan, Hm. exists r, b. split; [exact Hscan | split; [exact Hm |]].
    unfold postscanEvents. simpl. rewrite Hscan, Hm.
    now rewrite (proj2 (scanReportFile_paths cfg i)).
Qed.

(** Membership in one of the lists is membership in their concatenation. *)
Lemma elem_of_concat_lookup {A} (ls : list (list A)) :
  forall j l x, ls !! j = Some l -> x ∈ l -> x ∈ concat ls.
Proof.
  induction ls as [|l0 ls IH]; intros j l x Hj Hx; [discriminate |].
  simpl. apply elem_of_app. destruct j as [|j]; simpl in Hj.
  - injection Hj as ->. now left.
  - right. now apply (IH j l).
Qed.

(** Every run of the patcher is given the entries of the two maps under the
    pointer of its image. *)
Lemma PatchOption_Run_paths (ignoreErrors : bool) (reports outs : gmap nat string)
    (Imgs : list ImagePtr) :
  Forall (fun ev => forall p report out, ev = EvPatch p report out ->
            report = pathOf reports p /\ out = pathOf outs p)
    (fst (PatchOption_Run ignoreErrors Imgs reports outs)).
Proof.
  induction Imgs as [|i rest IH]; [constructor |].
  rewrite PatchOption_Run_cons. apply bind_trace_Forall.
  - constructor; [| constructor]. intros p report out [= <- <- <-]. now split.
  - intros _. exact IH.
Qed.

(** A patch step that completes has run the patcher for every image it was
    given. *)
Lemma PatchOption_Run_ok (ignoreErrors : bool) (reports outs : gmap nat string)
    (Imgs : list ImagePtr) :
  forall tr u, PatchOption_Run ignoreErrors Imgs reports outs = (tr, inr u) ->
    forall p, p ∈ Imgs -> EvPatch p (pathOf reports p) (pathOf outs p) ∈ tr.
Proof.
  induction Imgs as [|i rest IH]; intros tr u Hrun p Hp.
  - now apply elem_of_nil in Hp.
  - rewrite PatchOption_Run_cons in Hrun.
    apply bind_inr in Hrun as (tr1 & u1 & tr2 & Hone & Hrest & ->).
    assert (Htr1 : tr1 = [EvPatch i (pathOf reports i) (pathOf outs i)])
      by now injection Hone as <- _.
    subst tr1. cbn [app]. apply elem_of_cons in Hp as [-> | Hp].
    + apply list_elem_of_here.
    + apply list_elem_of_further. now apply (IH tr2 u).
Qed.

(** A trace without patcher runs holds no patcher event. *)
Lemma no_patcher_events (tr : list Event) :
  Forall (patcherRunsWithin []) tr ->
  Forall (fun ev => forall p report out, ev <> EvPatch p report out) tr.
Proof.
  intros Htr. eapply Forall_impl; [exact Htr |].
  intros ev Hev p report out ->. simpl in Hev.
  now apply elem_of_nil in Hev.
Qed.

(** The trace of the branch once the classification loop has completed. *)
Lemma Program_copacetic_classified (cfg : ImportSection) (imgs : list Image)
    (tr : list Event) (patch push : list ImagePtr) :
  classify cfg 0 imgs [] [] = (tr, inr (patch, push)) ->
  Program_copacetic cfg imgs
  = (tr ++ fst (afterDefer cfg imgs patch push (artifactPaths cfg patch push))
        ++ cleanup cfg (artifactPaths cfg patch push),
     outcome (snd (afterDefer cfg imgs patch push (artifactPaths cfg patch push)))).
Proof.
  intros Hrun. unfold Program_copacetic. rewrite Hrun. cbv zeta.
  now destruct (afterDefer cfg imgs patch push (artifactPaths cfg patch push)).
Qed.

(** In the whole branch the patcher is given, for each image, the entries
    of the path maps under its pointer. *)
Lemma Program_copacetic_patch_paths (cfg : ImportSection) (imgs : list Image)
    (tr : list Event) (patch push : list ImagePtr) :
  classify cfg 0 imgs [] [] = (tr, inr (patch, push)) ->
  forall p report out,
    EvPatch p report out ∈ fst (Program_copacetic cfg imgs) ->
    report = pathOf (reportFilePaths (artifactPaths cfg patch push)) p
    /\ out = pathOf (outFilePaths (artifactPaths cfg patch push)) p.
Proof.
  intros Hrun p report out.
  rewrite (Program_copacetic_classified _ _ _ _ _ Hrun). cbn [fst].
  set (m := artifactPaths cfg patch push).
  pose proof (classify_no_patcher cfg [] imgs 0 [] []) as Hc.
  rewrite Hrun in Hc. cbn [fst] in Hc. apply no_patcher_events in Hc.
  pose proof (no_patcher_events _ (cleanup_no_patcher cfg m [])) as Hcl.
  assert (Ha : Forall (fun ev => forall p report out, ev = EvPatch p report out ->
                         report = pathOf (reportFilePaths m) p
                         /\ out = pathOf (outFilePaths m) p)
                 (fst (afterDefer cfg imgs patch push m))).
  { unfold afterDefer.
    apply bind_trace_Forall; [repeat constructor; discriminate |]. intros _.
    apply bind_trace_Forall; [apply PatchOption_Run_paths |]. intros _.
    apply bind_trace_Forall.
    - eapply Forall_impl; [apply no_patcher_events, rescan_no_patcher |].
      intros ev Hev q r o ->. now destruct (Hev q r o).
    - intros _.
      eapply Forall_impl; [apply no_patcher_events, sign_no_patcher |].
      intros ev Hev q r o ->. now destruct (Hev q r o). }
  rewrite Forall_forall in Hc, Hcl, Ha.
  rewrite !elem_of_app. intros [Hin | [Hin | Hin]].
  - now destruct (Hc _ Hin p report out).
  - now apply (Ha _ Hin).
  - now destruct (Hcl _ Hin p report out).
Qed.

(** A run of the branch that returns without error has completed every
    step. *)
Lemma Program_copacetic_success (cfg : ImportSection) (imgs : list Image)
    (tr : list Event) :
  Program_copacetic cfg imgs = (tr, Returned None) ->
  exists trc patch push tri trp trs,
    classify cfg 0 imgs [] [] = (trc, inr (patch, push))
    /\ PatchOption_Run (IgnoreErrors (Copacetic cfg)) patch
         (reportFilePaths (artifactPaths cfg patch push))
         (outFilePaths (artifactPaths cfg patch push)) = (trp, inr tt)
    /\ Forall rescanOk (pointers 0 imgs)
    /\ tr = trc ++ (tri ++ trp ++ concat (postscanEvents cfg <$> pointers 0 imgs) ++ trs)
            ++ cleanup cfg (artifactPaths cfg patch push).
Proof.
  unfold Program_copacetic.
  destruct (classify cfg 0 imgs [] []) as [trc [ab | [patch push]]] eqn:Hc.
  { destruct ab; discriminate. }
  cbv zeta.
  destruct (afterDefer cfg imgs patch push (artifactPaths cfg patch push))
    as [tr' [ab | u]] eqn:Ha; [destruct ab; discriminate |].
  intros [= <-].
  unfold afterDefer in Ha.
  apply bind_inr in Ha as (tri & ? & tr1 & _ & Ha & ->).
  apply bind_inr in Ha as (trp & [] & tr2 & Hp & Ha & ->).
  apply bind_inr in Ha as (trr & ? & trs & Hres & Hsign & ->).
  apply rescan_ok in Hres as [-> Hall].
  now exists trc, patch, push, tri, trp, trs.
Qed.

(** C8.  When the classification loop completes, the three path maps hold,
    under the pointer of every image of the batch, the paths derived from its
    name [N], its tag [T] and the configured folders: the prescan report is
    the file [prescan-N:T.json] and the postscan report the file
    [postscan-N:T.json] of the reports folder, the archive is the file
    [N:T.tar] of the tars folder, each file name with every ['/'] replaced by
    ['-'], so that no separator is left in it.  These are the paths the run
    writes to: the classification loop writes the prescan report of every
    image it scans at that prescan path; every run of the patcher for the
    image is given that prescan path and that archive path; and a run of the
    branch that returns without error has written the postscan report of the
    image at that postscan path by the rescanning loop and, for an image of
    [patch], has run the patcher towards that archive. *)
Theorem artifact_paths_derivation (cfg : ImportSection) (imgs : list Image)
    (tr : list Event) (patch push : list ImagePtr) (k : nat) (i : Image) :
  classify cfg 0 imgs [] [] = (tr, inr (patch, push)) ->
  imgs !! k = Some i ->
  let N := strings.ReplaceAll (fst (ImageName i)) "/" "-" in
  let T := strings.ReplaceAll (Tag i) "/" "-" in
  let prescanFile :=
    filepath_Join (Folder (Reports (Output (Copacetic cfg))))
      ("prescan-" +:+ N +:+ ":" +:+ T +:+ ".json") in
  let postscanFile :=
    filepath_Join (Folder (Reports (Output (Copacetic cfg))))
      ("postscan-" +:+ N +:+ ":" +:+ T +:+ ".json") in
  let archive :=
    filepath_Join (Folder (Tars (Output (Copacetic cfg))))
      (N +:+ ":" +:+ T +:+ ".tar") in
  let p := {| addr := k; pointee := i |} in
  reportFilePaths (artifactPaths cfg patch push) !! k = Some prescanFile
  /\ reportPostFilePaths (artifactPaths cfg patch push) !! k = Some postscanFile
  /\ outFilePaths (artifactPaths cfg patch push) !! k = Some archive
  /\ strings.Contains N "/" = false
  /\ strings.Contains T "/" = false
  /\ (Patch i <> Some false -> exists b, EvWriteFile prescanFile b ∈ tr)
  /\ (exists tr', fst (Program_copacetic cfg imgs) = tr ++ tr')
  /\ (forall report out,
        EvPatch p report out ∈ fst (Program_copacetic cfg imgs) ->
        report = prescanFile /\ out = archive)
  /\ (forall trall, Program_copacetic cfg imgs = (trall, Returned None) ->
        (exists b, EvWriteFile postscanFile b ∈ trall)
        /\ (p ∈ patch -> EvPatch p prescanFile archive ∈ trall))
  /\ prescanPath cfg i = prescanFile
  /\ postscanPath cfg i = postscanFile
  /\ archivePath cfg i = archive
  /\ scanReportFile (Folder (Reports (Output (Copacetic cfg)))) "prescan-" i
     = prescanFile
  /\ scanReportFile (Folder (Reports (Output (Copacetic cfg)))) "postscan-" i
     = postscanFile.
Proof.
  intros Hrun Hk N T prescanFile postscanFile archive p.
  assert (HN : strings.Contains N "/" = false) by apply ReplaceAll_slash_clean.
  assert (HT : strings.Contains T "/" = false) by apply ReplaceAll_slash_clean.
  assert (Hpaths : prescanPath cfg i = prescanFile
                   /\ postscanPath cfg i = postscanFile
                   /\ archivePath cfg i = archive).
  { subst prescanFile postscanFile archive N T.
    unfold prescanPath, postscanPath, archivePath, Sprintf_name_tag.
    repeat split; f_equal;
      repeat
        match goal with
        | |- context [strings.ReplaceAll (?a +:+ ?b) "/" "-"] =>
            rewrite (ReplaceAll_slash_append a b)
        end; reflexivity. }
  destruct Hpaths as (Hpre & Hpost & Harch).
  destruct (scanReportFile_paths cfg i) as [Hs1 Hs2].
  rewrite Hpre in Hs1. rewrite Hpost in Hs2.
  clearbody prescanFile postscanFile archive. clearbody N T.
  assert (Hin : p ∈ pointers 0 imgs).
  { apply (list_elem_of_lookup_2 _ k). now rewrite (pointers_lookup _ 0 k i Hk). }
  assert (Hin' : p ∈ patch ++ push)
    by now rewrite (classify_partition _ _ _ _ _ Hrun).
  destruct (foldl_addPaths_lookup cfg (patch ++ push) noPaths p
              (classified_NoDup _ _ _ _ _ Hrun) Hin') as (Hm1 & Hm2 & Hm3).
  fold (artifactPaths cfg patch push) in Hm1, Hm2, Hm3.
  cbn [addr pointee p] in Hm1, Hm2, Hm3.
  rewrite Hpre in Hm1. rewrite Hpost in Hm2. rewrite Harch in Hm3.
  do 5 (split; [assumption |]).
  split; [| split; [| split; [| split]]].
  - intros HP.
    pose proof Hrun as Hok. apply classify_ok in Hok as (_ & _ & -> & Hall).
    rewrite Forall_forall in Hall. destruct (Hall _ Hin) as [_ Hscanned].
    destruct (Hscanned HP) as (r & b & Hscan & Hm). cbn [addr pointee p] in Hscan.
    exists b.
    apply (elem_of_concat_lookup _ k (prescanEvents cfg p)).
    + rewrite list_lookup_fmap, (pointers_lookup _ 0 k i Hk). reflexivity.
    + unfold prescanEvents. cbn [addr pointee p].
      destruct (Patch i) as [[|]|]; try congruence;
        rewrite Hscan, Hm, Hs1; apply list_elem_of_further, list_elem_of_here.
  - rewrite (Program_copacetic_classified _ _ _ _ _ Hrun). cbn [fst]. eauto.
  - intros report out Hev.
    destruct (Program_copacetic_patch_paths _ _ _ _ _ Hrun _ _ _ Hev) as [-> ->].
    unfold pathOf. cbn [addr p]. now rewrite Hm1, Hm3.
  - intros trall Hall.
    apply Program_copacetic_success in Hall
      as (trc & patch' & push' & tri & trp & trs & Hc & Hp & Hres & ->).
    rewrite Hrun in Hc. injection Hc as <- <- <-.
    split.
    + rewrite Forall_forall in Hres. destruct (Hres _ Hin) as (r & b & Hscan & Hm).
      cbn [addr pointee p] in Hscan. exists b.
      rewrite !elem_of_app. right. left. right. right. left.
      apply (elem_of_concat_lookup _ k (postscanEvents cfg p)).
      * rewrite list_lookup_fmap, (pointers_lookup _ 0 k i Hk). reflexivity.
      * unfold postscanEvents. cbn [addr pointee p].
        rewrite Hscan, Hm, Hs2. apply list_elem_of_further, list_elem_of_here.
    + intros Hpatch.
      pose proof (PatchOption_Run_ok _ _ _ _ _ _ Hp p Hpatch) as Hev.
      unfold pathOf in Hev. cbn [addr p] in Hev. rewrite Hm1, Hm3 in Hev.
      rewrite !elem_of_app. right. left. right. now left.
  - now repeat split.
Qed.

(** For a tag without separator, only the name is rewritten. *)
Lemma prescanPath_plain_tag (cfg : ImportSection) (i : Image) :
  strings.Contains (Tag i) "/" = false ->
  prescanPath cfg i
  = filepath_Join (Folder (Reports (Output (Copacetic cfg))))
      ("prescan-" +:+ strings.ReplaceAll (fst (ImageName i)) "/" "-"
       +:+ ":" +:+ Tag i +:+ ".json").
Proof.
  intros Htag. unfold prescanPath, Sprintf_name_tag. f_equal.
  repeat
    match goal with
    | |- context [strings.ReplaceAll (?a +:+ ?b) "/" "-"] =>
        rewrite (ReplaceAll_slash_append a b)
    end.
  now rewrite (ReplaceAll_slash_id _ Htag).
Qed.

(** The clean-up closure removes everything or nothing, by the reports
    flag alone. *)
Lemma cleanup_by_reports_flag (cfg : ImportSection) (m : ArtifactPaths) :
  cleanup cfg m
  = if Clean (Reports (Output (Copacetic cfg)))
    then removeValues (reportFilePaths m) ++ removeValues (reportPostFilePaths m)
         ++ removeValues (outFilePaths m)
    else [].
Proof.
  unfold cleanup. destruct (Clean (Reports (Output (Copacetic cfg)))).
  - now rewrite <- app_assoc.
  - reflexivity.
Qed.

(** An error in the classification loop leaves the branch before the
    clean-up is deferred: nothing is removed. *)
Lemma no_cleanup_on_classification_error (cfg : ImportSection) (imgs : list Image)
    (tr : list Event) (ab : Abort) :
  classify cfg 0 imgs [] [] = (tr, inl ab) ->
  Program_copacetic cfg imgs = (tr, outcome (inl ab)).
Proof. intros Hrun. unfold Program_copacetic. now rewrite Hrun. Qed.

End PipelineFacts.

(** ** The image branch on the concrete collaborators *)

Section PipelineExamples.

Import internal.

Local Existing Instance demo.env.

(** The scenario of section 8 for [app:1.0] (Debian, one OS-package
    finding): prescan report, patch towards the archive, postscan report. *)
Example scenario_app :
  Program_copacetic (demo.config false false) [demo.app]
  = ([EvScan Prescan "docker.io/library/app:1.0";
      EvWriteFile "reports/prescan-library-app:1.0.json" "debian";
      EvImport [];
      EvPatch (demo.ptr 0 demo.app) "reports/prescan-library-app:1.0.json"
        "tars/library-app:1.0.tar";
      EvScan Postscan "docker.io/library/app:1.0";
      EvWriteFile "reports/postscan-library-app:1.0.json" "debian"],
     Returned None).
Proof. vm_compute. reflexivity. Qed.

Lemma classification_follows_table_witness :
  classify (demo.config false false) 0 [demo.app; demo.tool; demo.appExcluded] [] []
  = (fst (classify (demo.config false false) 0
            [demo.app; demo.tool; demo.appExcluded] [] []),
     inr ([demo.ptr 0 demo.app], [demo.ptr 1 demo.tool; demo.ptr 2 demo.appExcluded]))
  /\ [demo.app; demo.tool; demo.appExcluded] !! 1 = Some demo.tool
  /\ forall report out,
       EvPatch (demo.ptr 1 demo.tool) report out
       ∉ fst (Program_copacetic (demo.config false false)
                [demo.app; demo.tool; demo.appExcluded]).
Proof.
  assert (Hrun :
    classify (demo.config false false) 0 [demo.app; demo.tool; demo.appExcluded] [] []
    = (fst (classify (demo.config false false) 0
              [demo.app; demo.tool; demo.appExcluded] [] []),
       inr ([demo.ptr 0 demo.app], [demo.ptr 1 demo.tool; demo.ptr 2 demo.appExcluded])))
    by (vm_compute; reflexivity).
  assert (Hk : [demo.app; demo.tool; demo.appExcluded] !! 1 = Some demo.tool)
    by reflexivity.
  split; [exact Hrun | split; [exact Hk |]].
  destruct (classification_follows_table (E := demo.env) _ _ _ _ _ 1 demo.tool Hrun Hk)
    as (_ & _ & Hnone).
  apply Hnone. apply list_elem_of_here.
Defined.

Lemma classification_partitions_witness :
  classify (demo.config false false) 0 [demo.app; demo.tool; demo.appExcluded] [] []
  = (fst (classify (demo.config false false) 0
            [demo.app; demo.tool; demo.appExcluded] [] []),
     inr ([demo.ptr 0 demo.app], [demo.ptr 1 demo.tool; demo.ptr 2 demo.appExcluded]))
  /\ [demo.ptr 0 demo.app] ++ [demo.ptr 1 demo.tool; demo.ptr 2 demo.appExcluded]
     ≡ₚ pointers 0 [demo.app; demo.tool; demo.appExcluded].
Proof.
  assert (Hrun :
    classify (demo.config false false) 0 [demo.app; demo.tool; demo.appExcluded] [] []
    = (fst (classify (demo.config false false) 0
              [demo.app; demo.tool; demo.appExcluded] [] []),
       inr ([demo.ptr 0 demo.app], [demo.ptr 1 demo.tool; demo.ptr 2 demo.appExcluded])))
    by (vm_compute; reflexivity).
  split; [exact Hrun |].
  exact (proj1 (classification_partitions (E := demo.env) _ _ _ _ _ Hrun)).
Defined.

Lemma rescan_covers_every_image_witness :
  Program_copacetic (demo.config false false) [demo.app; demo.tool]
  = (fst (Program_copacetic (demo.config false false) [demo.app; demo.tool]),
     Returned None)
  /\ exists r b,
       Scan Postscan 1 (fst (Image_String demo.tool)) = inr r
       /\ MarshalIndent r = inr b
       /\ postscanEvents (demo.config false false) (demo.ptr 1 demo.tool)
          = [EvScan Postscan (fst (Image_String demo.tool));
             EvWriteFile (postscanPath (demo.config false false) demo.tool) b].
Proof.
  assert (Hrun :
    Program_copacetic (demo.config false false) [demo.app; demo.tool]
    = (fst (Program_copacetic (demo.config false false) [demo.app; demo.tool]),
       Returned None))
    by (vm_compute; reflexivity).
  split; [exact Hrun |].
  exact (proj2 (rescan_covers_every_image (E := demo.env) _ _ _ Hrun)
           1 demo.tool eq_refl).
Defined.

Lemma artifact_paths_derivation_witness :
  classify (demo.config false false) 0 [demo.app; demo.tool; demo.appExcluded] [] []
  = (fst (classify (demo.config false false) 0
            [demo.app; demo.tool; demo.appExcluded] [] []),
     inr ([demo.ptr 0 demo.app], [demo.ptr 1 demo.tool; demo.ptr 2 demo.appExcluded]))
  /\ [demo.app; demo.tool; demo.appExcluded] !! 0 = Some demo.app
  /\ reportFilePaths
       (artifactPaths (demo.config false false) [demo.ptr 0 demo.app]
          [demo.ptr 1 demo.tool; demo.ptr 2 demo.appExcluded]) !! 0
     = Some "reports/prescan-library-app:1.0.json"
  /\ reportPostFilePaths
       (artifactPaths (demo.config false false) [demo.ptr 0 demo.app]
          [demo.ptr 1 demo.tool; demo.ptr 2 demo.appExcluded]) !! 0
     = Some "reports/postscan-library-app:1.0.json"
  /\ outFilePaths
       (artifactPaths (demo.config false false) [demo.ptr 0 demo.app]
          [demo.ptr 1 demo.tool; demo.ptr 2 demo.appExcluded]) !! 0
     = Some "tars/library-app:1.0.tar"
  /\ (forall report out,
        EvPatch (demo.ptr 0 demo.app) report out
        ∈ fst (Program_copacetic (demo.config false false)
                 [demo.app; demo.tool; demo.appExcluded]) ->
        report = "reports/prescan-library-app:1.0.json"
        /\ out = "tars/library-app:1.0.tar").
Proof.
  assert (Hrun :
    classify (demo.config false false) 0 [demo.app; demo.tool; demo.appExcluded] [] []
    = (fst (classify (demo.config false false) 0
              [demo.app; demo.tool; demo.appExcluded] [] []),
       inr ([demo.ptr 0 demo.app], [demo.ptr 1 demo.tool; demo.ptr 2 demo.appExcluded])))
    by (vm_compute; reflexivity).
  assert (Hk : [demo.app; demo.tool; demo.appExcluded] !! 0 = Some demo.app)
    by reflexivity.
  split; [exact Hrun | split; [exact Hk |]].
  destruct (artifact_paths_derivation (E := demo.env) _ _ _ _ _ 0 demo.app Hrun Hk)
    as (Hpre & Hpost & Harch & _ & _ & _ & _ & Hpatcher & _).
  split; [exact Hpre | split; [exact Hpost | split; [exact Harch | exact Hpatcher]]].
Defined.

(** C3 (as stated) fails.  An explicitly excluded image and an image on an
    unsupported OS are both push-only; after the run the prescan report of
    the second has been written and that of the first has not. *)
Lemma decision_does_not_determine_artifacts :
  classify (demo.config false false) 0 [demo.appExcluded; demo.agent] [] []
  = ([EvScan Prescan "docker.io/vendor/agent:0.9";
      EvWriteFile "reports/prescan-vendor-agent:0.9.json" "windows"],
     inr ([], [demo.ptr 0 demo.appExcluded; demo.ptr 1 demo.agent]))
  /\ ~ decision_determines_artifacts (demo.config false false)
         (fst (Program_copacetic (demo.config false false)
                 [demo.appExcluded; demo.agent]))
         [] [demo.ptr 0 demo.appExcluded; demo.ptr 1 demo.agent].
Proof.
  split; [vm_compute; reflexivity |].
  intros Hclaim.
  specialize (Hclaim (demo.ptr 0 demo.appExcluded) (demo.ptr 1 demo.agent)).
  assert (H0 : demo.ptr 0 demo.appExcluded
               ∈ [] ++ [demo.ptr 0 demo.appExcluded; demo.ptr 1 demo.agent])
    by apply list_elem_of_here.
  assert (H1 : demo.ptr 1 demo.agent
               ∈ [] ++ [demo.ptr 0 demo.appExcluded; demo.ptr 1 demo.agent])
    by apply list_elem_of_further, list_elem_of_here.
  specialize (Hclaim H0 H1 eq_refl).
  vm_compute in Hclaim. discriminate Hclaim.
Qed.

(** C7 (as stated) fails.  [tool:2.3] runs Alpine without findings, so its
    decision is push-only; the run still writes its postscan report. *)
Lemma postscan_written_for_push_only_image :
  classify (demo.config false false) 0 [demo.tool] [] []
  = ([EvScan Prescan "docker.io/tool:2.3";
      EvWriteFile "reports/prescan-tool:2.3.json" "alpine"],
     inr ([], [demo.ptr 0 demo.tool]))
  /\ snd (Program_copacetic (demo.config false false) [demo.tool]) = Returned None
  /\ ~ no_postscan_for_push_only (demo.config false false)
         (fst (Program_copacetic (demo.config false false) [demo.tool]))
         [demo.ptr 0 demo.tool].
Proof.
  split; [vm_compute; reflexivity | split; [vm_compute; reflexivity |]].
  intros Hclaim.
  specialize (Hclaim (demo.ptr 0 demo.tool) (list_elem_of_here _ _)).
  vm_compute in Hclaim. discriminate Hclaim.
Qed.

(** C6: the archives follow the reports flag, not the tars flag.  With only
    the tars flag set, the run patches [app:1.0] towards its archive and
    removes nothing; with only the reports flag set, the archive is
    removed. *)
Theorem cleanup_archives_follow_reports_flag :
  Clean (Tars (Output (Copacetic (demo.config false true)))) = true
  /\ snd (Program_copacetic (demo.config false true) [demo.app]) = Returned None
  /\ wroteArchive (fst (Program_copacetic (demo.config false true) [demo.app]))
       "tars/library-app:1.0.tar" = true
  /\ removed (fst (Program_copacetic (demo.config false true) [demo.app]))
       "tars/library-app:1.0.tar" = false
  /\ Clean (Tars (Output (Copacetic (demo.config true false)))) = false
  /\ removed (fst (Program_copacetic (demo.config true false) [demo.app]))
       "tars/library-app:1.0.tar" = true.
Proof. repeat split; vm_compute; reflexivity. Qed.

(** A failing scan leaves the branch from inside the classification loop:
    the prescan report already written stays, although the reports flag is
    set. *)
Example scan_error_skips_cleanup :
  Program_copacetic (demo.config true true)
    [demo.app; demo.image "unknown" "0.1" None]
  = ([EvScan Prescan "docker.io/library/app:1.0";
      EvWriteFile "reports/prescan-library-app:1.0.json" "debian";
      EvScan Prescan "docker.io/unknown:0.1"],
     Returned (Some "scan: image not found")).
Proof. vm_compute. reflexivity. Qed.

End PipelineExamples.

(** * Further properties *)

(** ** The registry client *)

Section RegistryMore.

Import registry.

Context {T : Transport}.

Lemma coalesced_true (probe : bool * option error) :
  coalesced probe = true -> probe = (true, None).
Proof. destruct probe as [[|] [e |]]; simpl; congruence. Qed.

(** X1.  A [true] entry of the map returned by [Exists] is never the
    product of an error: some registry of the list has the entry's URL and
    its probe returned [true] with a nil error. *)
Theorem Exists_true_entry_sound (w : World) (ref tag : string)
    (registries : list Registry) (u : string) :
  Exists w ref tag registries !! u = Some true ->
  exists r, r ∈ registries /\ URL r = u
            /\ Registry_Exist w r ref tag = (true, None).
Proof.
  rewrite Exists_lookup. intros Hu.
  destruct (last (filter (fun r => URL r = u) registries)) as [r |] eqn:Hlast;
    [| discriminate].
  apply last_Some_elem_of, list_elem_of_filter in Hlast as [Hurl Hin].
  exists r. split; [exact Hin | split; [exact Hurl |]].
  simpl in Hu. injection Hu as Hu. rewrite exists_coalesced in Hu.
  now apply coalesced_true.
Qed.

(** X2.  When the registries have pairwise distinct URLs the result of
    [Exists] does not depend on the order in which they are listed. *)
Theorem Exists_order_irrelevant (w : World) (ref tag : string)
    (rs rs' : list Registry) :
  NoDup (URL <$> rs) -> rs ≡ₚ rs' ->
  Exists w ref tag rs = Exists w ref tag rs'.
Proof.
  intros Hnd Hperm. apply map_eq. intros u.
  assert (Hnd' : NoDup (URL <$> rs')) by now rewrite <- Hperm.
  destruct (decide (u ∈ URL <$> rs)) as [Hu | Hu].
  - apply list_elem_of_fmap in Hu as (r & -> & Hr).
    rewrite (Exists_distinct_URLs w ref tag rs r Hnd Hr).
    rewrite (Exists_distinct_URLs w ref tag rs' r Hnd'); [reflexivity |].
    now rewrite <- Hperm.
  - assert (Hu' : u ∉ URL <$> rs') by now rewrite <- Hperm.
    assert (Hnone : forall l, u ∉ URL <$> l -> Exists w ref tag l !! u = None).
    { intros l Hl. apply not_elem_of_dom. rewrite Exists_dom.
      now rewrite elem_of_list_to_set. }
    now rewrite !Hnone.
Qed.

(** X3.  Probing two lists of registries one after the other is the union
    of the two results, the later list winning on a URL they share. *)
Theorem Exists_app_union (w : World) (ref tag : string) (l1 l2 : list Registry) :
  Exists w ref tag (l1 ++ l2) = Exists w ref tag l2 ∪ Exists w ref tag l1.
Proof.
  apply map_eq. intros u.
  rewrite lookup_union, !Exists_lookup, filter_app, last_app.
  destruct (last (filter (fun r => URL r = u) l2)),
           (last (filter (fun r => URL r = u) l1)); reflexivity.
Qed.

(** X4.  When [Push] returns an error its descriptor is the zero
    descriptor, and either the registries are as they were or the error is
    the one [oras.Copy] returned for the two connections [Push] built. *)
Theorem Push_error_zero_descriptor (w : World) (r : Registry)
    (sourceURL name tag : string) (arch : option string) (e : error) :
  snd (fst (Push w r sourceURL name tag arch)) = Some e ->
  fst (fst (Push w r sourceURL name tag arch)) = zeroDescriptor
  /\ (snd (Push w r sourceURL name tag arch) = w
      \/ exists source target opts,
           Push_connect r sourceURL name arch = inr (source, target, opts)
           /\ oras_Copy w source tag (RemoteTarget target) tag opts
              = (inl e, snd (Push w r sourceURL name tag arch))).
Proof.
  unfold Push.
  destruct (Push_connect r sourceURL name arch) as [e0 | [[source target] opts]] eqn:Hc.
  - simpl. intros _. split; [reflexivity | now left].
  - destruct (oras_Copy w source tag (RemoteTarget target) tag opts)
      as [[e0 | d] w'] eqn:Hcopy; simpl; [| discriminate].
    intros [= ->]. split; [reflexivity |]. right. now exists source, target, opts.
Qed.

(** X5.  A platform string that does not parse makes [Push] fail without
    copying: the result is the zero descriptor with an error, and the
    registries are as they were. *)
Theorem Push_bad_platform_no_copy (w : World) (r : Registry)
    (sourceURL name tag a : string) (e : error) :
  ParsePlatform a = inl e ->
  exists e', Push w r sourceURL name tag (Some a) = ((zeroDescriptor, Some e'), w).
Proof.
  intros Hp. unfold Push, Push_connect. rewrite Hp.
  destruct NewStoreFromDocker as [e0 | cs]; [now exists e0 |].
  destruct (NewRepository (strings.Join [sourceURL; name] "/")) as [e0 | s1];
    [now exists e0 |].
  destruct (NewRepository (strings.Join [URL r; name] "/")) as [e0 | t1];
    [now exists e0 |].
  now exists e.
Qed.

(** X6.  [Fetch] and [Pull] return a descriptor exactly when they return no
    error. *)
Theorem Fetch_Pull_descriptor_iff_no_error (w : World) (r : Registry)
    (name tag : string) :
  (fst (Fetch w r name tag) = None <-> snd (Fetch w r name tag) <> None)
  /\ (fst (fst (Pull w r name tag)) = None
      <-> snd (fst (Pull w r name tag)) <> None).
Proof.
  unfold Fetch, Pull.
  destruct (NewRepository (strings.Join [URL r; name] "/")) as [e | repo]; simpl.
  { split; split; congruence. }
  destruct NewStoreFromDocker as [e | cs]; simpl.
  { split; split; congruence. }
  destruct (Resolve _ _ _), (oras_Copy _ _ _ _ _ _) as [[? | ?] ?]; simpl;
    split; split; congruence.
Qed.

(** X7.  Without a credential store no operation reaches a registry:
    [Push] fails with the store's error before parsing anything, [Fetch],
    [Pull] and [Exist] fail, and [Push] and [Pull] leave the registries as
    they were. *)
Theorem no_credentials_no_access (w : World) (r : Registry)
    (sourceURL name tag reference : string) (arch : option string)
    (plainHTTP : bool) (e : error) :
  NewStoreFromDocker = inl e ->
  Push w r sourceURL name tag arch = ((zeroDescriptor, Some e), w)
  /\ (exists e', Fetch w r name tag = (None, Some e'))
  /\ (exists e', Pull w r name tag = ((None, Some e'), w))
  /\ (exists e', Exist w reference tag plainHTTP = (false, Some e')).
Proof.
  intros Hcs. unfold Push, Push_connect, Fetch, Pull, Exist. rewrite Hcs.
  split; [reflexivity |].
  destruct (NewRepository (strings.Join [URL r; name] "/")) as [e0 | repo];
    destruct (NewRepository reference) as [e1 | repo'];
    repeat split; eauto.
Qed.

End RegistryMore.

Section RegistryMoreExamples.

Import registry.

Lemma Exists_true_entry_sound_witness :
  Exists (T := demo.transport) demo.world "app" "1.0"
    [demo.empty; demo.upstream] !! "upstream.example" = Some true
  /\ exists r, r ∈ [demo.empty; demo.upstream] /\ URL r = "upstream.example"
               /\ Registry_Exist (T := demo.transport) demo.world r "app" "1.0"
                  = (true, None).
Proof.
  assert (H : Exists (T := demo.transport) demo.world "app" "1.0"
                [demo.empty; demo.upstream] !! "upstream.example" = Some true)
    by (vm_compute; reflexivity).
  split; [exact H |].
  exact (Exists_true_entry_sound (T := demo.transport) _ _ _ _ _ H).
Defined.

Lemma Exists_order_irrelevant_witness :
  NoDup (URL <$> [demo.empty; demo.upstream])
  /\ [demo.empty; demo.upstream] ≡ₚ [demo.upstream; demo.empty]
  /\ Exists (T := demo.transport) demo.world "app" "1.0" [demo.empty; demo.upstream]
     = Exists (T := demo.transport) demo.world "app" "1.0" [demo.upstream; demo.empty].
Proof.
  assert (Hnd : NoDup (URL <$> [demo.empty; demo.upstream])).
  { apply NoDup_cons. split.
    - apply not_elem_of_cons. split; [discriminate | apply not_elem_of_nil].
    - apply NoDup_singleton. }
  assert (Hperm : [demo.empty; demo.upstream] ≡ₚ [demo.upstream; demo.empty])
    by apply perm_swap.
  split; [exact Hnd | split; [exact Hperm |]].
  exact (Exists_order_irrelevant (T := demo.transport) _ _ _ _ _ Hnd Hperm).
Defined.

Lemma Push_error_zero_descriptor_witness :
  snd (fst (Push (T := demo.transport) demo.world demo.target "empty.example"
              "app" "1.0" None)) = Some "manifest unknown"
  /\ fst (fst (Push (T := demo.transport) demo.world demo.target "empty.example"
                 "app" "1.0" None)) = zeroDescriptor.
Proof.
  assert (H : snd (fst (Push (T := demo.transport) demo.world demo.target
                          "empty.example" "app" "1.0" None))
              = Some "manifest unknown") by (vm_compute; reflexivity).
  split; [exact H |].
  exact (proj1 (Push_error_zero_descriptor (T := demo.transport) _ _ _ _ _ _ _ H)).
Defined.

Lemma Push_bad_platform_no_copy_witness :
  ParsePlatform (Transport := demo.strictPlatform) "amd65"
  = inl "platform: unknown architecture"
  /\ exists e',
       Push (T := demo.strictPlatform) demo.world demo.target "upstream.example"
         "app" "1.0" (Some "amd65")
       = ((zeroDescriptor, Some e'), demo.world).
Proof.
  assert (H : ParsePlatform (Transport := demo.strictPlatform) "amd65"
              = inl "platform: unknown architecture") by reflexivity.
  split; [exact H |].
  exact (Push_bad_platform_no_copy (T := demo.strictPlatform) demo.world demo.target
           "upstream.example" "app" "1.0" "amd65" _ H).
Defined.

Lemma no_credentials_no_access_witness :
  NewStoreFromDocker (Transport := demo.offline) = inl "docker config: no such file"
  /\ Push (T := demo.offline) demo.world demo.target "upstream.example" "app" "1.0" None
     = ((zeroDescriptor, Some "docker config: no such file"), demo.world).
Proof.
  assert (H : NewStoreFromDocker (Transport := demo.offline)
              = inl "docker config: no such file") by reflexivity.
  split; [exact H |].
  exact (proj1 (no_credentials_no_access (T := demo.offline) demo.world demo.target
                  "upstream.example" "app" "1.0" "upstream.example/app" None false _ H)).
Defined.

End RegistryMoreExamples.

(** ** The image branch of [Program] *)

Section PipelineMore.

Import internal.

Context {E : Env}.

Lemma bind_trace_elem {A B} (m : M A) (f : A -> M B) (ev : Event) :
  ev ∈ fst (bind m f) ->
  ev ∈ fst m \/ exists a, snd m = inr a /\ ev ∈ fst (f a).
Proof.
  unfold bind. destruct m as [tr [ab | a]]; simpl; [now left |].
  destruct (f a) as [tr' r] eqn:Hf. simpl. rewrite elem_of_app.
  intros [H | H]; [now left | right]. exists a. now rewrite Hf.
Qed.

Lemma bind_no_panic {A B} (m : M A) (f : A -> M B) :
  snd m <> inl Panic -> (forall a, snd (f a) <> inl Panic) ->
  snd (bind m f) <> inl Panic.
Proof.
  intros Hm Hf. unfold bind. destruct m as [tr [ab | a]].
  - simpl in *. intros [= ->]. now apply Hm.
  - specialize (Hf a). now destruct (f a).
Qed.

Lemma check_no_panic {A} (r : A * option error) : snd (check r) <> inl Panic.
Proof. now destruct r as [a [e |]]. Qed.

Lemma scan_no_panic (st : Stage) (k : nat) (ref : string) :
  snd (scan st k ref) <> inl Panic.
Proof. unfold scan. simpl. now destruct (Scan st k ref). Qed.

Lemma marshal_no_panic (r : Report) : snd (marshal r) <> inl Panic.
Proof. unfold marshal. now destruct (MarshalIndent r). Qed.

Lemma writeFile_no_panic (st : Stage) (k : nat) (f : string) (b : Bytes) :
  snd (writeFile st k f b) <> inl Panic.
Proof. unfold writeFile. simpl. now destruct (WriteFile st k f b). Qed.

(** The classification loop stops early only by returning an error. *)
Lemma classify_no_panic (cfg : ImportSection) (imgs : list Image) :
  forall k patch push, snd (classify cfg k imgs patch push) <> inl Panic.
Proof.
  induction imgs as [|i rest IH]; intros k patch push; [discriminate |].
  rewrite classify_cons. cbv zeta.
  destruct (Patch i) as [[|]|].
  2: { apply bind_no_panic; [apply check_no_panic |]. intros ref. apply IH. }
  all: apply bind_no_panic; [apply check_no_panic |]; intros ref;
    apply bind_no_panic; [apply scan_no_panic |]; intros r;
    (destruct (SupportedOS (Metadata_OS r));
       [destruct (ContainsOsPkgs (Results r)) |]);
    (apply bind_no_panic; [apply marshal_no_panic |]; intros b;
     apply bind_no_panic; [apply writeFile_no_panic |]; intros _; apply IH).
Qed.

(** The classification loop only scans and writes reports. *)
Lemma classify_trace_prescan (cfg : ImportSection) (imgs : list Image) :
  forall k patch push,
    Forall isPrescanEvent (fst (classify cfg k imgs patch push)).
Proof.
  induction imgs as [|i rest IH]; intros k patch push; [constructor |].
  rewrite classify_cons. cbv zeta.
  destruct (Patch i) as [[|]|].
  2: { apply bind_trace_Forall; [rewrite check_trace; constructor |].
       intros ref. apply IH. }
  all: apply bind_trace_Forall; [rewrite check_trace; constructor |]; intros ref;
    apply bind_trace_Forall; [repeat constructor |]; intros r;
    (destruct (SupportedOS (Metadata_OS r));
       [destruct (ContainsOsPkgs (Results r)) |]);
    (apply bind_trace_Forall; [rewrite marshal_trace; constructor |]; intros b;
     apply bind_trace_Forall; [repeat constructor |]; intros _; apply IH).
Qed.

Lemma rescan_trace_Forall (Q : Event -> Prop) (out pre : string)
    (imgs : list Image) :
  (forall ref, Q (EvScan Postscan ref)) -> (forall f b, Q (EvWriteFile f b)) ->
  forall k, Forall Q (fst (rescan out pre k imgs)).
Proof.
  intros Hs Hw. induction imgs as [|i rest IH]; intros k; [constructor |].
  rewrite rescan_cons.
  apply bind_trace_Forall; [repeat constructor; apply Hs |]. intros r.
  apply bind_trace_Forall; [rewrite marshal_trace; constructor |]. intros b.
  apply bind_trace_Forall; [repeat constructor; apply Hw |]. intros _. apply IH.
Qed.

Lemma PatchOption_Run_trace_Forall (Q : Event -> Prop) (ignoreErrors : bool)
    (reports outs : gmap nat string) (Imgs : list ImagePtr) :
  (forall i r o, Q (EvPatch i r o)) ->
  Forall Q (fst (PatchOption_Run ignoreErrors Imgs reports outs)).
Proof.
  intros Hp. induction Imgs as [|i rest IH]; [constructor |].
  rewrite PatchOption_Run_cons. apply bind_trace_Forall.
  - repeat constructor. apply Hp.
  - intros _. exact IH.
Qed.

Lemma sign_trace (cfg : ImportSection) (Imgs : list ImagePtr) :
  fst (sign cfg Imgs)
  = match KeyRefPass (Cosign cfg) with
    | Some _ => signEvents cfg Imgs
    | None => []
    end.
Proof.
  unfold sign, signEvents.
  destruct (CosignEnabled (Cosign cfg)), (KeyRefPass (Cosign cfg)); reflexivity.
Qed.

Lemma sign_inr (cfg : ImportSection) (Imgs : list ImagePtr) (tr : list Event)
    (u : unit) :
  sign cfg Imgs = (tr, inr u) -> tr = signEvents cfg Imgs.
Proof.
  unfold sign, signEvents. destruct (CosignEnabled (Cosign cfg)).
  - destruct (KeyRefPass (Cosign cfg)); [| discriminate].
    destruct (SignOption_Run Imgs); [discriminate |]. now intros [= <-].
  - now intros [= <-].
Qed.

Lemma importImages_inr (Imgs : list ImagePtr) (tr : list Event) (u : unit) :
  importImages Imgs = (tr, inr u) ->
  ImportOption_Run Imgs = None /\ tr = [EvImport Imgs].
Proof.
  unfold importImages. destruct (ImportOption_Run Imgs); [discriminate |].
  now intros [= <-].
Qed.

(** What runs once the clean-up is deferred removes nothing itself. *)
Lemma afterDefer_no_removal (cfg : ImportSection) (imgs : list Image)
    (patch push : list ImagePtr) (m : ArtifactPaths) :
  Forall (fun ev => ~ isRemoval ev) (fst (afterDefer cfg imgs patch push m)).
Proof.
  unfold afterDefer.
  apply bind_trace_Forall; [repeat constructor; now intros [] |]. intros _.
  apply bind_trace_Forall;
    [apply PatchOption_Run_trace_Forall; now intros i r o [] |]. intros _.
  apply bind_trace_Forall;
    [apply rescan_trace_Forall; [now intros ref [] | now intros f b []] |].
  intros _. rewrite sign_trace. unfold signEvents.
  destruct (KeyRefPass (Cosign cfg)); [| constructor].
  destruct (CosignEnabled (Cosign cfg)); repeat constructor. now intros [].
Qed.

Lemma removeValues_elem (m : gmap nat string) (path : string) :
  EvRemoveAll path ∈ removeValues m <-> exists k, m !! k = Some path.
Proof.
  unfold removeValues. rewrite list_elem_of_fmap. split.
  - intros ([k v] & [= ->] & Hkv). exists k. now apply elem_of_map_to_list.
  - intros [k Hk]. exists (k, path). split; [reflexivity |].
    now apply elem_of_map_to_list.
Qed.

Lemma foldl_addPaths_dom (cfg : ImportSection) (l : list ImagePtr) :
  forall m0,
    dom (reportFilePaths (foldl (addPaths cfg) m0 l))
    = dom (reportFilePaths m0) ∪ list_to_set (addr <$> l)
    /\ dom (reportPostFilePaths (foldl (addPaths cfg) m0 l))
       = dom (reportPostFilePaths m0) ∪ list_to_set (addr <$> l)
    /\ dom (outFilePaths (foldl (addPaths cfg) m0 l))
       = dom (outFilePaths m0) ∪ list_to_set (addr <$> l).
Proof.
  induction l as [|x l IH]; intros m0.
  - simpl. rewrite !(right_id_L ∅ (∪)). auto.
  - simpl. destruct (IH (addPaths cfg m0 x)) as (H1 & H2 & H3).
    rewrite H1, H2, H3. simpl. rewrite !dom_insert_L.
    repeat split; apply set_eq; intros z; rewrite !elem_of_union; tauto.
Qed.

(** X8.  When the patch-enabled branch returns without error, its stages
    ran in this order: the classification loop with its prescans, the import
    of the push-only images, the patch run, the rescan of the whole batch,
    the signing of all images when enabled, and last the deferred
    clean-up. *)
Theorem Program_copacetic_stage_order (cfg : ImportSection) (imgs : list Image)
    (tr : list Event) :
  Program_copacetic cfg imgs = (tr, Returned None) ->
  exists patch push,
    classify cfg 0 imgs [] []
    = (concat (prescanEvents cfg <$> pointers 0 imgs), inr (patch, push))
    /\ ImportOption_Run push = None
    /\ tr = concat (prescanEvents cfg <$> pointers 0 imgs)
            ++ [EvImport push]
            ++ fst (PatchOption_Run (IgnoreErrors (Copacetic cfg)) patch
                      (reportFilePaths (artifactPaths cfg patch push))
                      (outFilePaths (artifactPaths cfg patch push)))
            ++ concat (postscanEvents cfg <$> pointers 0 imgs)
            ++ signEvents cfg (patch ++ push)
            ++ cleanup cfg (artifactPaths cfg patch push).
Proof.
  unfold Program_copacetic.
  destruct (classify cfg 0 imgs [] []) as [trc [ab | [patch push]]] eqn:Hc.
  { destruct ab; discriminate. }
  cbv zeta.
  destruct (afterDefer cfg imgs patch push (artifactPaths cfg patch push))
    as [tr' [ab | u]] eqn:Ha; [destruct ab; discriminate |].
  intros [= <-].
  unfold afterDefer in Ha.
  apply bind_inr in Ha as (tri & ? & tr1 & Himp & Ha & ->).
  apply importImages_inr in Himp as [Himp ->].
  apply bind_inr in Ha as (trp & ? & tr2 & Hpatch & Ha & ->).
  apply bind_inr in Ha as (trr & ? & trs & Hres & Hsign & ->).
  apply rescan_ok in Hres as [-> _].
  apply sign_inr in Hsign as ->.
  pose proof (classify_ok _ _ _ _ _ _ _ _ Hc) as (_ & _ & -> & _).
  exists patch, push. split; [reflexivity | split; [exact Himp |]].
  rewrite Hpatch. simpl. now rewrite <- !app_assoc.
Qed.

(** X9.  Once the classification loop has completed, the deferred clean-up
    runs at the end of the branch however it ends (success, error or panic)
    and nothing is removed before it.  With the reports flag set it removes
    the prescan and the postscan path of every image of the batch; with the
    flag unset it removes nothing. *)
Theorem cleanup_runs_on_every_exit (cfg : ImportSection) (imgs : list Image)
    (trc : list Event) (patch push : list ImagePtr) :
  classify cfg 0 imgs [] [] = (trc, inr (patch, push)) ->
  (exists tr',
      fst (Program_copacetic cfg imgs)
      = trc ++ tr' ++ cleanup cfg (artifactPaths cfg patch push)
      /\ Forall (fun ev => ~ isRemoval ev) (trc ++ tr'))
  /\ (Clean (Reports (Output (Copacetic cfg))) = true ->
      forall k i, imgs !! k = Some i ->
        EvRemoveAll (prescanPath cfg i) ∈ cleanup cfg (artifactPaths cfg patch push)
        /\ EvRemoveAll (postscanPath cfg i)
           ∈ cleanup cfg (artifactPaths cfg patch push))
  /\ (Clean (Reports (Output (Copacetic cfg))) = false ->
      cleanup cfg (artifactPaths cfg patch push) = []).
Proof.
  intros Hc. split; [| split].
  - unfold Program_copacetic. rewrite Hc. cbv zeta.
    pose proof (afterDefer_no_removal cfg imgs patch push
                  (artifactPaths cfg patch push)) as Ha.
    destruct (afterDefer cfg imgs patch push (artifactPaths cfg patch push))
      as [tr' r]. cbn [fst] in *.
    exists tr'. split; [reflexivity |].
    apply Forall_app. split; [| exact Ha].
    pose proof (classify_trace_prescan cfg imgs 0 [] []) as Hp.
    rewrite Hc in Hp. cbn [fst] in Hp.
    eapply Forall_impl; [exact Hp |].
    intros [] Hev []; exact Hev.
  - intros Hclean k i Hk.
    assert (Hin : {| addr := k; pointee := i |} ∈ patch ++ push).
    { rewrite (classify_partition _ _ _ _ _ Hc).
      apply (list_elem_of_lookup_2 _ k). now rewrite (pointers_lookup _ 0 k i Hk). }
    destruct (foldl_addPaths_lookup cfg (patch ++ push) noPaths _
                (classified_NoDup _ _ _ _ _ Hc) Hin) as (Hpre & Hpost & _).
    rewrite cleanup_by_reports_flag, Hclean, !elem_of_app, !removeValues_elem.
    split; [left | right; left]; exists k; assumption.
  - intros Hclean. now rewrite cleanup_by_reports_flag, Hclean.
Qed.

(** X10.  When the classification loop stops early, the branch returns that
    error (it never panics there) and has done nothing but prescans and
    report writes: nothing was imported, patched, signed or removed. *)
Theorem classification_failure_stops_branch (cfg : ImportSection)
    (imgs : list Image) (tr : list Event) (ab : Abort) :
  classify cfg 0 imgs [] [] = (tr, inl ab) ->
  exists e,
    Program_copacetic cfg imgs = (tr, Returned (Some e))
    /\ Forall isPrescanEvent tr.
Proof.
  intros Hc.
  pose proof (classify_no_panic cfg imgs 0 [] []) as Hnp.
  pose proof (classify_trace_prescan cfg imgs 0 [] []) as Hp.
  rewrite Hc in Hnp, Hp. simpl in Hnp, Hp.
  destruct ab as [e |]; [| congruence].
  exists e. split; [| exact Hp].
  unfold Program_copacetic. now rewrite Hc.
Qed.

(** X11.  When the import of the push-only images fails, the branch returns
    that error at once: after the classification loop its only events are
    the import attempt and the deferred clean-up, so nothing is patched,
    rescanned or signed. *)
Theorem import_failure_stops_branch (cfg : ImportSection) (imgs : list Image)
    (trc : list Event) (patch push : list ImagePtr) (e : error) :
  classify cfg 0 imgs [] [] = (trc, inr (patch, push)) ->
  ImportOption_Run push = Some e ->
  Program_copacetic cfg imgs
  = (trc ++ [EvImport push] ++ cleanup cfg (artifactPaths cfg patch push),
     Returned (Some e)).
Proof.
  intros Hc Himp. unfold Program_copacetic. rewrite Hc. cbv zeta.
  unfold afterDefer, importImages, bind. now rewrite Himp.
Qed.

(** X12.  When the classification loop completes, the three path maps have
    the same keys, one per image of the batch: the pointers taken in the
    loop. *)
Theorem path_maps_cover_batch (cfg : ImportSection) (imgs : list Image)
    (tr : list Event) (patch push : list ImagePtr) :
  classify cfg 0 imgs [] [] = (tr, inr (patch, push)) ->
  dom (reportFilePaths (artifactPaths cfg patch push))
  = list_to_set (seq 0 (length imgs))
  /\ dom (reportPostFilePaths (artifactPaths cfg patch push))
     = list_to_set (seq 0 (length imgs))
  /\ dom (outFilePaths (artifactPaths cfg patch push))
     = list_to_set (seq 0 (length imgs))
  /\ size (reportFilePaths (artifactPaths cfg patch push)) = length imgs.
Proof.
  intros Hc.
  assert (Hkeys : list_to_set (addr <$> (patch ++ push))
                  = (list_to_set (seq 0 (length imgs)) : gset nat)).
  { rewrite (classify_partition _ _ _ _ _ Hc). now rewrite pointers_addr. }
  destruct (foldl_addPaths_dom cfg (patch ++ push) noPaths) as (H1 & H2 & H3).
  unfold artifactPaths. simpl in H1, H2, H3.
  rewrite dom_empty_L, (left_id_L ∅ (∪)) in H1, H2, H3.
  rewrite Hkeys in H1, H2, H3.
  split; [exact H1 | split; [exact H2 | split; [exact H3 |]]].
  rewrite <- size_dom, H1, size_list_to_set by apply NoDup_seq.
  apply length_seq.
Qed.

(** Where a signing event of the patch-enabled branch comes from. *)
Lemma EvSign_origin (cfg : ImportSection) (imgs : list Image)
    (Imgs : list ImagePtr) :
  EvSign Imgs ∈ fst (Program_copacetic cfg imgs) ->
  exists trc patch push trr u,
    classify cfg 0 imgs [] [] = (trc, inr (patch, push))
    /\ rescan (Folder (Reports (Output (Copacetic cfg)))) "postscan-" 0 imgs
       = (trr, inr u)
    /\ EvSign Imgs ∈ fst (sign cfg (patch ++ push)).
Proof.
  unfold Program_copacetic.
  pose proof (classify_trace_prescan cfg imgs 0 [] []) as Hp.
  destruct (classify cfg 0 imgs [] []) as [trc [ab | [patch push]]] eqn:Hc;
    cbn [fst] in Hp.
  { simpl. intros Hev. rewrite Forall_forall in Hp. now destruct (Hp _ Hev). }
  cbv zeta.
  destruct (afterDefer cfg imgs patch push (artifactPaths cfg patch push))
    as [tr' r] eqn:Ha. cbn [fst].
  rewrite !elem_of_app. intros [Hev | [Hev | Hev]].
  - rewrite Forall_forall in Hp. now destruct (Hp _ Hev).
  - assert (Hev' : EvSign Imgs
                   ∈ fst (afterDefer cfg imgs patch push (artifactPaths cfg patch push)))
      by now rewrite Ha.
    clear Ha Hev. unfold afterDefer in Hev'.
    apply bind_trace_elem in Hev' as [Hev | (? & _ & Hev)].
    { simpl in Hev. apply list_elem_of_singleton in Hev. discriminate. }
    apply bind_trace_elem in Hev as [Hev | (? & _ & Hev)].
    { pose proof (PatchOption_Run_trace_Forall (fun ev => ev <> EvSign Imgs)
                    (IgnoreErrors (Copacetic cfg))
                    (reportFilePaths (artifactPaths cfg patch push))
                    (outFilePaths (artifactPaths cfg patch push)) patch) as Hq.
      rewrite Forall_forall in Hq. exfalso. now apply (Hq ltac:(discriminate) _ Hev). }
    apply bind_trace_elem in Hev as [Hev | (u & Hres & Hev)].
    { pose proof (rescan_trace_Forall (fun ev => ev <> EvSign Imgs)
                    (Folder (Reports (Output (Copacetic cfg)))) "postscan-" imgs
                    ltac:(discriminate) ltac:(discriminate) 0) as Hq.
      rewrite Forall_forall in Hq. exfalso. now apply (Hq _ Hev). }
    destruct (rescan (Folder (Reports (Output (Copacetic cfg)))) "postscan-" 0 imgs)
      as [trr rr] eqn:Hrescan.
    simpl in Hres. subst rr.
    now exists trc, patch, push, trr, u.
  - rewrite cleanup_by_reports_flag in Hev.
    destruct (Clean (Reports (Output (Copacetic cfg))));
      [| now apply elem_of_nil in Hev].
    rewrite !elem_of_app in Hev. unfold removeValues in Hev.
    destruct Hev as [Hev | [Hev | Hev]];
      apply list_elem_of_fmap in Hev as (? & Hev & _); discriminate.
Qed.

(** X13.  In the patch-enabled branch signing happens only when it is
    enabled and only after every image of the batch was rescanned, and the
    images signed are every image of the batch exactly once. *)
Theorem signing_covers_batch (cfg : ImportSection) (imgs : list Image)
    (Imgs : list ImagePtr) :
  EvSign Imgs ∈ fst (Program_copacetic cfg imgs) ->
  CosignEnabled (Cosign cfg) = true
  /\ Imgs ≡ₚ pointers 0 imgs
  /\ Forall rescanOk (pointers 0 imgs).
Proof.
  intros Hev.
  apply EvSign_origin in Hev as (trc & patch & push & trr & u & Hc & Hres & Hev).
  apply rescan_ok in Hres as [_ Hall].
  rewrite sign_trace in Hev. unfold signEvents in Hev.
  destruct (KeyRefPass (Cosign cfg)); [| now apply elem_of_nil in Hev].
  destruct (CosignEnabled (Cosign cfg)); [| now apply elem_of_nil in Hev].
  apply list_elem_of_singleton in Hev. injection Hev as ->.
  split; [reflexivity | split; [| exact Hall]].
  apply (classify_partition _ _ _ _ _ Hc).
Qed.

(** X14.  The import-only branch takes one pointer per image, in order,
    imports that list and, when signing is enabled and the import succeeded,
    signs the same list; it never scans, patches, writes or removes
    anything. *)
Theorem importOnly_events (cfg : ImportSection) (imgs : list Image) :
  pointee <$> pointers 0 imgs = imgs
  /\ addr <$> pointers 0 imgs = seq 0 (length imgs)
  /\ exists rest,
       fst (Program_importOnly cfg imgs) = EvImport (pointers 0 imgs) :: rest
       /\ (rest = []
           \/ (rest = [EvSign (pointers 0 imgs)]
               /\ ImportOption_Run (pointers 0 imgs) = None
               /\ CosignEnabled (Cosign cfg) = true)).
Proof.
  split; [| split; [apply pointers_addr |]].
  - generalize 0. induction imgs as [|i rest IH]; intros k; [reflexivity |].
    simpl. now rewrite IH.
  - unfold Program_importOnly, importImages, bind, sign.
    destruct (ImportOption_Run (pointers 0 imgs)); simpl.
    + exists []. split; [reflexivity | now left].
    + destruct (CosignEnabled (Cosign cfg)); simpl.
      * destruct (KeyRefPass (Cosign cfg)); simpl.
        -- exists [EvSign (pointers 0 imgs)]. split; [reflexivity | now right].
        -- exists []. split; [reflexivity | now left].
      * exists []. split; [reflexivity | now left].
Qed.

(** X15.  With import and signing enabled but no passphrase configured, no
    run returns without error and nothing is ever signed: the run returns an
    earlier error or panics on the missing passphrase. *)
Theorem signing_without_passphrase (cfg : ImportSection) (imgs : list Image)
    (Imgs : list ImagePtr) :
  Enabled cfg = true ->
  CosignEnabled (Cosign cfg) = true ->
  KeyRefPass (Cosign cfg) = None ->
  snd (Program_images cfg imgs) <> Returned None
  /\ EvSign Imgs ∉ fst (Program_images cfg imgs).
Proof.
  intros Hen Hsig Hpass.
  assert (Hsign : forall l, sign cfg l = ([], inl Panic))
    by (intros l; unfold sign; now rewrite Hsig, Hpass).
  unfold Program_images. rewrite Hen. simpl.
  destruct (CopaceticEnabled (Copacetic cfg)).
  - split.
    + unfold Program_copacetic.
      destruct (classify cfg 0 imgs [] []) as [trc [ab | [patch push]]];
        [destruct ab; discriminate |].
      cbv zeta.
      destruct (afterDefer cfg imgs patch push (artifactPaths cfg patch push))
        as [tr' [ab | u]] eqn:Ha; [destruct ab; discriminate |].
      unfold afterDefer in Ha.
      apply bind_inr in Ha as (? & ? & ? & _ & Ha & _).
      apply bind_inr in Ha as (? & ? & ? & _ & Ha & _).
      apply bind_inr in Ha as (? & ? & ? & _ & Ha & _).
      rewrite Hsign in Ha. discriminate.
    + intros Hev.
      apply EvSign_origin in Hev as (? & patch & push & ? & ? & _ & _ & Hev).
      rewrite Hsign in Hev. now apply elem_of_nil in Hev.
  - unfold Program_importOnly, importImages, bind. rewrite Hsign.
    destruct (ImportOption_Run (pointers 0 imgs)); simpl;
      (split; [discriminate |]);
      intros Hev; apply list_elem_of_singleton in Hev; discriminate.
Qed.

End PipelineMore.

(** ** [strings.Replace] on a prefix *)

Section ReplaceFacts.

Import strings.

Lemma replace_n_skip (old new p t : string) :
  replace_n old new 0 (String.length p) (p +:+ t) = t.
Proof.
  induction p as [|x p IH]; simpl.
  - now destruct t.
  - exact IH.
Qed.

Lemma replace_n_match (old new : string) (n : nat) (c : ascii) (s : string) :
  HasPrefix (String c s) old = true ->
  replace_n old new (S n) 0 (String c s)
  = new +:+ replace_n old new n (String.length old - 1) s.
Proof. intros Hp. cbn [replace_n]. now rewrite Hp. Qed.

(** Replacing once a non-empty prefix puts the new text in its place. *)
Lemma Replace_prefix_once (r old new : string) :
  old <> EmptyString -> HasPrefix r old = true ->
  exists rest, r = old +:+ rest /\ Replace r old new 1 = new +:+ rest.
Proof.
  intros Hne Hp. destruct (HasPrefix_inv _ _ Hp) as [rest ->].
  exists rest. split; [reflexivity |].
  destruct old as [|c old]; [congruence |].
  unfold Replace. change (1 <? 0)%Z with false. cbv iota.
  change (Z.to_nat 1) with 1.
  change (String c old +:+ rest) with (String c (old +:+ rest)).
  rewrite replace_n_match by apply (HasPrefix_append (String c old) rest).
  f_equal.
  replace (String.length (String c old) - 1) with (String.length old)
    by (cbn [String.length]; lia).
  apply replace_n_skip.
Qed.

End ReplaceFacts.

(** ** [modify] *)

Section ModifyFacts.

Import internal.

Context {E : Env}.

Variable RefToImage : string -> Image * option error.

Lemma othersKept_refl (i : nat) (st : Cell) : othersKept i st st.
Proof. split; [lia | now intros j _ _]. Qed.

Lemma othersKept_trans (i : nat) (st1 st2 st3 : Cell) :
  othersKept i st1 st2 -> othersKept i st2 st3 -> othersKept i st1 st3.
Proof.
  intros [Hf1 H1] [Hf2 H2]. split; [lia |]. intros j Hj Hne.
  destruct (H1 j Hj Hne) as [Hp1 Hv1].
  destruct (H2 j ltac:(lia) Hne) as [Hp2 Hv2].
  split; congruence.
Qed.

Lemma store_other (i j : nat) (img : Image) (f : nat -> Image) :
  j <> i -> store i img f j = f j.
Proof. intros Hne. unfold store. now destruct (Nat.eqb_spec j i). Qed.

Lemma store_same (i : nat) (img : Image) (f : nat -> Image) :
  store i img f i = img.
Proof. unfold store. now rewrite Nat.eqb_refl. Qed.

Lemma deleteKey_kept (i : nat) (st : Cell) : othersKept i st (deleteKey i st).
Proof.
  split; [simpl; lia |]. intros j _ Hne. simpl.
  split; [reflexivity | now apply lookup_delete_ne].
Qed.

Lemma excludeFromPatching_kept (i : nat) (st : Cell) :
  othersKept i st (excludeFromPatching i st).
Proof.
  split; [simpl; lia |]. intros j _ Hne. simpl.
  split; [now apply store_other | reflexivity].
Qed.

Lemma setRegistry_kept (i : nat) (mirror : string) (st : Cell) :
  othersKept i st (setRegistry i mirror st).
Proof.
  split; [simpl; lia |]. intros j _ Hne. simpl.
  split; [now apply store_other | reflexivity].
Qed.

Lemma insertNew_kept (i : nat) (img : Image) (vs : list string) (st : Cell) :
  othersKept i st (insertNew img vs st).
Proof.
  split; [simpl; lia |]. intros j Hj _. simpl.
  split; [apply store_other; lia | apply lookup_insert_ne; lia].
Qed.

Lemma replaceMirror_kept (mirrorConfig : list MirrorConfigSection) (i : nat)
    (st : Cell) :
  othersKept i st (replaceMirror mirrorConfig i st).
Proof.
  unfold replaceMirror. destruct (List.filter _ mirrorConfig).
  - apply othersKept_refl.
  - apply setRegistry_kept.
Qed.

Lemma applyRules_cons (r : string) (i : nat) (vs : list string)
    (rule : ModifyRule) (rest : list ModifyRule) (st : Cell) :
  applyRules RefToImage r i vs (rule :: rest) st
  = if ruleApplies r rule
    then match RefToImage (strings.Replace r (From rule) (To rule) 1) with
         | (_, Some err) => (deleteKey i st, Some err)
         | (img, None) =>
             match Image_String (rewritten img (pointees st i)) with
             | (_, Some err) =>
                 (insertNew (rewritten img (pointees st i)) vs (deleteKey i st),
                  Some err)
             | (_, None) =>
                 applyRules RefToImage r i vs rest
                   (insertNew (rewritten img (pointees st i)) vs (deleteKey i st))
             end
         end
    else applyRules RefToImage r i vs rest st.
Proof. reflexivity. Qed.

(** The rewriting loop keeps the image behind [i] and every other entry,
    and an entry of [i] that is gone stays gone. *)
Lemma applyRules_frame (r : string) (i : nat) (vs : list string)
    (rules : list ModifyRule) :
  forall st st' err,
    applyRules RefToImage r i vs rules st = (st', err) ->
    i < fresh st ->
    othersKept i st st'
    /\ pointees st' i = pointees st i
    /\ (values st !! i = None -> values st' !! i = None).
Proof.
  induction rules as [|rule rest IH]; intros st st' err Hrun Hi.
  - injection Hrun as <- <-. split; [apply othersKept_refl | now split].
  - rewrite applyRules_cons in Hrun.
    destruct (ruleApplies r rule); [| now apply IH in Hrun].
    assert (Hdel : othersKept i st (deleteKey i st)
                   /\ pointees (deleteKey i st) i = pointees st i
                   /\ values (deleteKey i st) !! i = None).
    { split; [apply deleteKey_kept | split; [reflexivity |]].
      simpl. apply lookup_delete_eq. }
    destruct (RefToImage _) as [img [e |]].
    { injection Hrun as <- <-. destruct Hdel as (? & ? & ?).
      split; [assumption | split; [assumption | intros _; assumption]]. }
    set (img' := rewritten img (pointees st i)) in *.
    assert (Hins : othersKept i st (insertNew img' vs (deleteKey i st))
                   /\ pointees (insertNew img' vs (deleteKey i st)) i = pointees st i
                   /\ values (insertNew img' vs (deleteKey i st)) !! i = None).
    { destruct Hdel as (Hk & Hp & Hv). split; [| split].
      - eapply othersKept_trans; [exact Hk | apply insertNew_kept].
      - simpl. apply store_other. lia.
      - simpl. rewrite lookup_insert_ne by lia. apply lookup_delete_eq. }
    destruct (Image_String img') as [? [e |]].
    { injection Hrun as <- <-. destruct Hins as (? & ? & ?).
      split; [assumption | split; [assumption | intros _; assumption]]. }
    apply IH in Hrun as (Hk & Hp & Hv); [| simpl; lia].
    destruct Hins as (Hk0 & Hp0 & Hv0). split; [| split].
    + eapply othersKept_trans; [exact Hk0 | exact Hk].
    + congruence.
    + intros _. now apply Hv.
Qed.

Lemma applyRules_no_rule (r : string) (i : nat) (vs : list string)
    (rules : list ModifyRule) (st : Cell) :
  Forall (fun rule => ruleApplies r rule = false) rules ->
  applyRules RefToImage r i vs rules st = (st, None).
Proof.
  induction 1 as [|rule rest Hrule _ IH]; [reflexivity |].
  now rewrite applyRules_cons, Hrule.
Qed.

(** Every rule that applies leaves a new entry behind. *)
Lemma applyRules_inserts (r : string) (i : nat) (vs : list string)
    (rule : ModifyRule) (rules : list ModifyRule) :
  forall st st',
    applyRules RefToImage r i vs rules st = (st', None) ->
    i < fresh st -> rule ∈ rules -> ruleApplies r rule = true ->
    exists j parsed,
      fresh st <= j < fresh st'
      /\ RefToImage (strings.Replace r (From rule) (To rule) 1) = (parsed, None)
      /\ values st' !! j = Some vs
      /\ pointees st' j = rewritten parsed (pointees st i).
Proof.
  induction rules as [|rule0 rest IH]; intros st st' Hrun Hi Hin Happ.
  - now apply elem_of_nil in Hin.
  - rewrite applyRules_cons in Hrun.
    destruct (ruleApplies r rule0) eqn:H0.
    + destruct (RefToImage (strings.Replace r (From rule0) (To rule0) 1))
        as [img [e |]] eqn:Hparse; [discriminate |].
      set (img' := rewritten img (pointees st i)) in *.
      destruct (Image_String img') as [? [e |]]; [discriminate |].
      set (st2 := insertNew img' vs (deleteKey i st)) in *.
      assert (Hi2 : i < fresh st2) by (simpl; lia).
      apply elem_of_cons in Hin as [-> | Hin].
      * destruct (applyRules_frame _ _ _ _ _ _ _ Hrun Hi2) as ([Hf Hk] & _ & _).
        exists (fresh st), img.
        destruct (Hk (fresh st) ltac:(simpl; lia) ltac:(lia)) as [Hp Hv].
        split; [simpl in Hf; lia | split; [exact Hparse | split]].
        -- rewrite Hv. simpl. apply lookup_insert_eq.
        -- rewrite Hp. simpl. apply store_same.
      * destruct (IH _ _ Hrun Hi2 Hin Happ) as (j & parsed & Hj & Hp & Hv & Himg).
        exists j, parsed. split; [simpl in Hj; lia | split; [exact Hp | split]].
        -- exact Hv.
        -- rewrite Himg. simpl. rewrite store_other by lia. reflexivity.
    + apply elem_of_cons in Hin as [-> | Hin]; [congruence |].
      now apply (IH _ _ Hrun Hi Hin Happ).
Qed.

Lemma anyPrefix_empty (r : string) (refs : list string) :
  EmptyString ∈ refs -> anyPrefix r refs = true.
Proof.
  intros Hin. unfold anyPrefix. apply existsb_exists.
  exists EmptyString. split; [now apply list_elem_of_In | reflexivity].
Qed.

(** The state in which the rewriting loop starts. *)
Lemma modifyEntry_unfold (c : Chart) (mirrorConfig : list MirrorConfigSection)
    (i : nat) (vs : list string) (st : Cell) (r : string)
    (images : ImagesSection) :
  Image_String (pointees st i) = (r, None) ->
  Images c = Some images ->
  modifyEntry RefToImage c mirrorConfig i vs st
  = match applyRules RefToImage r i vs (Modify images)
            (if anyPrefix r (ExcludeCopacetic images)
             then excludeFromPatching i
                    (if anyPrefix r (Exclude images) then deleteKey i st else st)
             else if anyPrefix r (Exclude images) then deleteKey i st else st) with
    | (st1, Some err) => (st1, Some err)
    | (st1, None) => (replaceMirror mirrorConfig i st1, None)
    end.
Proof.
  intros Hs Hc. unfold modifyEntry. rewrite Hs, Hc.
  destruct (applyRules RefToImage r i vs (Modify images) _) as [st1 [e |]];
    reflexivity.
Qed.

(** X16.  Processing the entry of one image never touches another: every
    older pointer other than [i] keeps its image and its value paths, and
    whatever is inserted gets a new pointer. *)
Theorem modifyEntry_keeps_others (c : Chart)
    (mirrorConfig : list MirrorConfigSection) (i : nat) (vs : list string)
    (st st' : Cell) (err : option error) :
  modifyEntry RefToImage c mirrorConfig i vs st = (st', err) ->
  i < fresh st ->
  fresh st <= fresh st'
  /\ forall j, j < fresh st -> j <> i ->
       pointees st' j = pointees st j /\ values st' !! j = values st !! j.
Proof.
  intros Hrun Hi. change (othersKept i st st').
  unfold modifyEntry in Hrun.
  destruct (Image_String (pointees st i)) as [r [e |]].
  { injection Hrun as <- <-. apply othersKept_refl. }
  destruct (Images c) as [images |].
  2: { injection Hrun as <- <-. apply replaceMirror_kept. }
  set (st0 := if anyPrefix r (ExcludeCopacetic images)
              then excludeFromPatching i
                     (if anyPrefix r (Exclude images) then deleteKey i st else st)
              else if anyPrefix r (Exclude images) then deleteKey i st else st)
    in *.
  assert (H0 : othersKept i st st0 /\ fresh st0 = fresh st).
  { subst st0.
    destruct (anyPrefix r (ExcludeCopacetic images)),
             (anyPrefix r (Exclude images)); (split; [| reflexivity]).
    - eapply othersKept_trans; [apply deleteKey_kept | apply excludeFromPatching_kept].
    - apply excludeFromPatching_kept.
    - apply deleteKey_kept.
    - apply othersKept_refl. }
  destruct H0 as [H0 Hf0].
  destruct (applyRules RefToImage r i vs (Modify images) st0) as [st1 err1] eqn:Hrules.
  destruct (applyRules_frame _ _ _ _ _ _ _ Hrules ltac:(lia)) as (H1 & _ & _).
  destruct err1 as [e |]; injection Hrun as <- <-.
  - eapply othersKept_trans; [exact H0 | exact H1].
  - eapply othersKept_trans; [exact H0 |].
    eapply othersKept_trans; [exact H1 | apply replaceMirror_kept].
Qed.

Lemma modifyEntry_gone (c : Chart) (mirrorConfig : list MirrorConfigSection)
    (i : nat) (vs : list string) (st st' : Cell) (err : option error)
    (r : string) (images : ImagesSection) :
  Image_String (pointees st i) = (r, None) ->
  Images c = Some images ->
  anyPrefix r (Exclude images) = true ->
  i < fresh st ->
  modifyEntry RefToImage c mirrorConfig i vs st = (st', err) ->
  values st' !! i = None.
Proof.
  intros Hs Hc Hex Hi. rewrite (modifyEntry_unfold _ _ _ _ _ _ _ Hs Hc), Hex.
  set (st0 := if anyPrefix r (ExcludeCopacetic images)
              then excludeFromPatching i (deleteKey i st) else deleteKey i st).
  assert (H0 : values st0 !! i = None /\ fresh st0 = fresh st).
  { subst st0. destruct (anyPrefix r (ExcludeCopacetic images)); simpl;
      (split; [apply lookup_delete_eq | reflexivity]). }
  destruct H0 as [H0 Hf0].
  destruct (applyRules RefToImage r i vs (Modify images) st0) as [st1 err1] eqn:Hrules.
  destruct (applyRules_frame _ _ _ _ _ _ _ Hrules ltac:(lia)) as (_ & _ & Hgone).
  specialize (Hgone H0).
  destruct err1 as [e |]; intros [= <- <-]; [exact Hgone |].
  unfold replaceMirror. now destruct (List.filter _ mirrorConfig).
Qed.

(** X17.  An image whose reference starts with an [Exclude] ref is out of
    the chart's map after its entry has been processed, whatever else the
    entry's processing did and however it ended. *)
Theorem modifyEntry_excludes (c : Chart) (mirrorConfig : list MirrorConfigSection)
    (i : nat) (vs : list string) (st st' : Cell) (err : option error)
    (r : string) (images : ImagesSection) :
  Image_String (pointees st i) = (r, None) ->
  Images c = Some images ->
  anyPrefix r (Exclude images) = true ->
  i < fresh st ->
  modifyEntry RefToImage c mirrorConfig i vs st = (st', err) ->
  values st' !! i = None.
Proof.
  intros Hs Hc Hex Hi. rewrite (modifyEntry_unfold _ _ _ _ _ _ _ Hs Hc), Hex.
  destruct (applyRules RefToImage r i vs (Modify images)
              (if anyPrefix r (ExcludeCopacetic images)
               then excludeFromPatching i (deleteKey i st) else deleteKey i st))
    as [st1 err1] eqn:Hrules.
  assert (Hgone : values st1 !! i = None).
  { apply applyRules_frame in Hrules as (_ & _ & Hkeep).
    - apply Hkeep. destruct (anyPrefix r (ExcludeCopacetic images)); simpl;
        apply lookup_delete_eq.
    - now destruct (anyPrefix r (ExcludeCopacetic images)). }
  destruct err1 as [e |]; intros [= <- <-]; [exact Hgone |].
  unfold replaceMirror. now destruct (List.filter _ mirrorConfig).
Qed.

(** X18.  An [Exclude] entry with an empty ref excludes every image of
    the chart, while rewriting rules with an empty [From] are ignored: with
    only such rules nothing is inserted. *)
Theorem modifyEntry_empty_refs (c : Chart) (mirrorConfig : list MirrorConfigSection)
    (i : nat) (vs : list string) (st st' : Cell) (err : option error)
    (r : string) (images : ImagesSection) :
  Image_String (pointees st i) = (r, None) ->
  Images c = Some images ->
  i < fresh st ->
  modifyEntry RefToImage c mirrorConfig i vs st = (st', err) ->
  (EmptyString ∈ Exclude images -> values st' !! i = None)
  /\ (Forall (fun rule => From rule = EmptyString) (Modify images) ->
      fresh st' = fresh st /\ err = None).
Proof.
  intros Hs Hc Hi Hrun. split.
  - intros Hin.
    apply (modifyEntry_gone c mirrorConfig i vs st st' err r images Hs Hc
             (anyPrefix_empty r _ Hin) Hi Hrun).
  - intros Hrules. rewrite (modifyEntry_unfold _ _ _ _ _ _ _ Hs Hc) in Hrun.
    rewrite applyRules_no_rule in Hrun.
    + injection Hrun as <- <-. split; [| reflexivity].
      unfold replaceMirror.
      destruct (List.filter _ mirrorConfig),
               (anyPrefix r (ExcludeCopacetic images)),
               (anyPrefix r (Exclude images)); reflexivity.
    + eapply Forall_impl; [exact Hrules |]. intros rule Hfrom.
      unfold ruleApplies. now rewrite Hfrom.
Qed.

Lemma replaceMirror_fields (mirrorConfig : list MirrorConfigSection) (i : nat)
    (st : Cell) :
  Repository (pointees (replaceMirror mirrorConfig i st) i) = Repository (pointees st i)
  /\ Tag (pointees (replaceMirror mirrorConfig i st) i) = Tag (pointees st i)
  /\ Digest (pointees (replaceMirror mirrorConfig i st) i) = Digest (pointees st i)
  /\ UseDigest (pointees (replaceMirror mirrorConfig i st) i)
     = UseDigest (pointees st i)
  /\ Patch (pointees (replaceMirror mirrorConfig i st) i) = Patch (pointees st i)
  /\ Registry (pointees (replaceMirror mirrorConfig i st) i)
     = match List.filter
               (fun m => String.eqb (MirrorRegistry m) (Registry (pointees st i)))
               mirrorConfig with
       | [] => Registry (pointees st i)
       | m :: _ => Mirror m
       end
  /\ values (replaceMirror mirrorConfig i st) = values st
  /\ fresh (replaceMirror mirrorConfig i st) = fresh st.
Proof.
  unfold replaceMirror. destruct (List.filter _ mirrorConfig) as [|m ms].
  - repeat split.
  - simpl. rewrite store_same. repeat split.
Qed.

(** The state in which the rewriting loop starts, seen from [i]. *)
Lemma beforeRules_fields (i : nat) (st : Cell) (exclude noPatch : bool) :
  let st0 := if noPatch
             then excludeFromPatching i (if exclude then deleteKey i st else st)
             else if exclude then deleteKey i st else st in
  Registry (pointees st0 i) = Registry (pointees st i)
  /\ Repository (pointees st0 i) = Repository (pointees st i)
  /\ Tag (pointees st0 i) = Tag (pointees st i)
  /\ Digest (pointees st0 i) = Digest (pointees st i)
  /\ UseDigest (pointees st0 i) = UseDigest (pointees st i)
  /\ Patch (pointees st0 i) = (if noPatch then Some false else Patch (pointees st i))
  /\ fresh st0 = fresh st.
Proof.
  destruct noPatch, exclude; simpl; rewrite ?store_same; repeat split.
Qed.

(** X19.  A rewriting rule whose non-empty [From] is a prefix of the
    image's reference inserts a new entry when the entry's processing
    succeeds, also for an image that is excluded: the new image is parsed
    from [To] followed by the rest of the reference, it takes over tag,
    digest and patch flag of the old image (the flag being [false] if the
    image is excluded from patching) and it is mapped to the same value
    paths. *)
Theorem modifyEntry_rewrites (c : Chart) (mirrorConfig : list MirrorConfigSection)
    (i : nat) (vs : list string) (st st' : Cell) (r : string)
    (images : ImagesSection) (rule : ModifyRule) :
  Image_String (pointees st i) = (r, None) ->
  Images c = Some images ->
  rule ∈ Modify images ->
  From rule <> EmptyString ->
  strings.HasPrefix r (From rule) = true ->
  i < fresh st ->
  modifyEntry RefToImage c mirrorConfig i vs st = (st', None) ->
  exists j parsed rest,
    fresh st <= j < fresh st'
    /\ r = From rule +:+ rest
    /\ RefToImage (To rule +:+ rest) = (parsed, None)
    /\ values st' !! j = Some vs
    /\ Registry (pointees st' j) = Registry parsed
    /\ Repository (pointees st' j) = Repository parsed
    /\ Tag (pointees st' j) = Tag (pointees st i)
    /\ Digest (pointees st' j) = Digest (pointees st i)
    /\ UseDigest (pointees st' j) = UseDigest (pointees st i)
    /\ Patch (pointees st' j)
       = (if anyPrefix r (ExcludeCopacetic images)
          then Some false else Patch (pointees st i)).
Proof.
  intros Hs Hc Hin Hne Hp Hi. rewrite (modifyEntry_unfold _ _ _ _ _ _ _ Hs Hc).
  pose proof (beforeRules_fields i st (anyPrefix r (Exclude images))
                (anyPrefix r (ExcludeCopacetic images))) as H0.
  cbv zeta in H0.
  set (st0 := if anyPrefix r (ExcludeCopacetic images)
              then excludeFromPatching i
                     (if anyPrefix r (Exclude images) then deleteKey i st else st)
              else if anyPrefix r (Exclude images) then deleteKey i st else st)
    in *.
  destruct H0 as (_ & _ & Htag & Hdig & Huse & Hpatch & Hf0).
  destruct (applyRules RefToImage r i vs (Modify images) st0) as [st1 [e |]] eqn:Hrules;
    [discriminate |].
  intros [= <-].
  assert (Happ : ruleApplies r rule = true).
  { unfold ruleApplies. rewrite Hp, andb_true_r. apply negb_true_iff.
    now apply String.eqb_neq. }
  destruct (applyRules_inserts _ _ _ _ _ _ _ Hrules ltac:(lia) Hin Happ)
    as (j & parsed & Hj & Hparse & Hv & Himg).
  destruct (Replace_prefix_once r (From rule) (To rule) Hne Hp) as (rest & Hr & Hrep).
  rewrite Hrep in Hparse.
  destruct (replaceMirror_kept mirrorConfig i st1) as [Hf1 Hk1].
  destruct (Hk1 j ltac:(lia) ltac:(lia)) as [Hpj Hvj].
  destruct (replaceMirror_fields mirrorConfig i st1) as (_ & _ & _ & _ & _ & _ & _ & Hf).
  exists j, parsed, rest.
  rewrite Hpj, Hvj, Himg, Hf. simpl.
  repeat split; try assumption; lia.
Qed.

(** X20.  What a processed entry does to the image itself: repository,
    tag and digest stay, the patch flag becomes [false] exactly when the
    reference starts with an [ExcludeCopacetic] ref, and the registry
    becomes the mirror of the first mirror entry for it, if there is one. *)
Theorem modifyEntry_image (c : Chart) (mirrorConfig : list MirrorConfigSection)
    (i : nat) (vs : list string) (st st' : Cell) (r : string) :
  Image_String (pointees st i) = (r, None) ->
  i < fresh st ->
  modifyEntry RefToImage c mirrorConfig i vs st = (st', None) ->
  Repository (pointees st' i) = Repository (pointees st i)
  /\ Tag (pointees st' i) = Tag (pointees st i)
  /\ Digest (pointees st' i) = Digest (pointees st i)
  /\ UseDigest (pointees st' i) = UseDigest (pointees st i)
  /\ Patch (pointees st' i)
     = match Images c with
       | Some images =>
           if anyPrefix r (ExcludeCopacetic images)
           then Some false else Patch (pointees st i)
       | None => Patch (pointees st i)
       end
  /\ Registry (pointees st' i)
     = match List.filter
               (fun m => String.eqb (MirrorRegistry m) (Registry (pointees st i)))
               mirrorConfig with
       | [] => Registry (pointees st i)
       | m :: _ => Mirror m
       end.
Proof.
  intros Hs Hi.
  destruct (Images c) as [images |] eqn:Hc.
  - rewrite (modifyEntry_unfold _ _ _ _ _ _ _ Hs Hc).
    pose proof (beforeRules_fields i st (anyPrefix r (Exclude images))
                  (anyPrefix r (ExcludeCopacetic images))) as H0.
    cbv zeta in H0.
    set (st0 := if anyPrefix r (ExcludeCopacetic images)
                then excludeFromPatching i
                       (if anyPrefix r (Exclude images) then deleteKey i st else st)
                else if anyPrefix r (Exclude images) then deleteKey i st else st)
      in *.
    destruct H0 as (Hreg & Hrepo & Htag & Hdig & Huse & Hpatch & Hf0).
    destruct (applyRules RefToImage r i vs (Modify images) st0)
      as [st1 [e |]] eqn:Hrules; [discriminate |].
    intros [= <-].
    destruct (applyRules_frame _ _ _ _ _ _ _ Hrules ltac:(lia)) as (_ & Hsame & _).
    destruct (replaceMirror_fields mirrorConfig i st1)
      as (H1 & H2 & H3 & H4 & H5 & H6 & _).
    rewrite H1, H2, H3, H4, H5, H6, Hsame, Hreg.
    repeat split; assumption.
  - unfold modifyEntry. rewrite Hs, Hc. intros [= <-].
    destruct (replaceMirror_fields mirrorConfig i st)
      as (H1 & H2 & H3 & H4 & H5 & H6 & _).
    repeat split; assumption.
Qed.

(** One entry processed under a chart without applicable rules. *)
Lemma modifyEntry_without_rules (c : Chart)
    (mirrorConfig : list MirrorConfigSection) (i : nat) (vs : list string)
    (st : Cell) (images : ImagesSection) :
  Images c = Some images ->
  Forall (fun rule => From rule = EmptyString) (Modify images) ->
  snd (Image_String (pointees st i)) = None ->
  exists st',
    modifyEntry RefToImage c mirrorConfig i vs st = (st', None)
    /\ fresh st' = fresh st
    /\ values st'
       = (if anyPrefix (fst (Image_String (pointees st i))) (Exclude images)
          then delete i (values st) else values st)
    /\ forall j, j <> i -> pointees st' j = pointees st j.
Proof.
  intros Hc Hrules Hok.
  destruct (Image_String (pointees st i)) as [r o] eqn:Hs. simpl in Hok. subst o.
  rewrite (modifyEntry_unfold _ _ _ _ _ _ _ Hs Hc).
  rewrite applyRules_no_rule.
  2: { eapply Forall_impl; [exact Hrules |]. intros rule Hfrom.
       unfold ruleApplies. now rewrite Hfrom. }
  eexists. split; [reflexivity |]. simpl.
  destruct (replaceMirror_fields mirrorConfig i
              (if anyPrefix r (ExcludeCopacetic images)
               then excludeFromPatching i
                      (if anyPrefix r (Exclude images) then deleteKey i st else st)
               else if anyPrefix r (Exclude images) then deleteKey i st else st))
    as (_ & _ & _ & _ & _ & _ & Hv & Hf).
  rewrite Hv, Hf. split; [| split].
  - now destruct (anyPrefix r (ExcludeCopacetic images)), (anyPrefix r (Exclude images)).
  - now destruct (anyPrefix r (ExcludeCopacetic images)), (anyPrefix r (Exclude images)).
  - intros j Hj. unfold replaceMirror.
    destruct (List.filter _ mirrorConfig);
      destruct (anyPrefix r (ExcludeCopacetic images)),
               (anyPrefix r (Exclude images));
      simpl; rewrite ?store_other by exact Hj; reflexivity.
Qed.

(** X21.  For a chart whose rewriting rules all have an empty [From], the
    loop over the chart's images succeeds whenever the references can be
    built, inserts nothing, and removes exactly the visited entries whose
    reference starts with an [Exclude] ref, whatever the order of the
    visit. *)
Theorem modifyChart_without_rules (c : Chart)
    (mirrorConfig : list MirrorConfigSection) (images : ImagesSection)
    (order : list nat) :
  Images c = Some images ->
  Forall (fun rule => From rule = EmptyString) (Modify images) ->
  NoDup order ->
  forall st,
    (forall i, i ∈ order -> snd (Image_String (pointees st i)) = None) ->
    exists st',
      modifyChart RefToImage c mirrorConfig order st = (st', None)
      /\ fresh st' = fresh st
      /\ forall i,
           values st' !! i
           = if bool_decide (i ∈ order)
                && anyPrefix (fst (Image_String (pointees st i))) (Exclude images)
             then None else values st !! i.
Proof.
  intros Hc Hrules. induction order as [|i rest IH]; intros Hnd st Hok.
  - exists st. split; [reflexivity | split; [reflexivity |]]. intros i.
    rewrite bool_decide_eq_false_2 by apply not_elem_of_nil. reflexivity.
  - apply NoDup_cons in Hnd as [Hi Hnd]. simpl.
    assert (Hother : forall st1,
              (forall j, j <> i -> pointees st1 j = pointees st j) ->
              forall k, k ∈ rest -> snd (Image_String (pointees st1 k)) = None).
    { intros st1 Hp k Hk. rewrite Hp by (intros ->; contradiction).
      apply Hok. now apply list_elem_of_further. }
    destruct (values st !! i) as [vs |] eqn:Hv.
    + destruct (modifyEntry_without_rules c mirrorConfig i vs st images Hc Hrules
                  (Hok i (list_elem_of_here _ _)))
        as (st1 & Hrun & Hf1 & Hv1 & Hp1).
      rewrite Hrun.
      destruct (IH Hnd st1 (Hother st1 Hp1)) as (st' & Hrun' & Hf' & Hv').
      exists st'. split; [exact Hrun' | split; [congruence |]].
      intros k. rewrite Hv'. destruct (decide (k = i)) as [-> | Hne].
      * rewrite (bool_decide_eq_false_2 _ Hi), (bool_decide_eq_true_2 (i ∈ i :: rest))
          by apply list_elem_of_here.
        simpl. rewrite Hv1.
        destruct (anyPrefix _ (Exclude images)); [apply lookup_delete_eq | reflexivity].
      * rewrite (Hp1 k Hne).
        assert (Hmem : bool_decide (k ∈ i :: rest) = bool_decide (k ∈ rest)).
        { apply bool_decide_ext. rewrite elem_of_cons. tauto. }
        rewrite Hmem.
        assert (Hvk : values st1 !! k = values st !! k).
        { rewrite Hv1. destruct (anyPrefix _ (Exclude images));
            [now apply lookup_delete_ne | reflexivity]. }
        now rewrite Hvk.
    + destruct (IH Hnd st (Hother st (fun j _ => eq_refl))) as (st' & Hrun' & Hf' & Hv').
      exists st'. split; [exact Hrun' | split; [exact Hf' |]].
      intros k. rewrite Hv'. destruct (decide (k = i)) as [-> | Hne].
      * rewrite (bool_decide_eq_false_2 _ Hi), Hv. simpl.
        now destruct (bool_decide (i ∈ i :: rest) && _).
      * assert (Hmem : bool_decide (k ∈ i :: rest) = bool_decide (k ∈ rest)).
        { apply bool_decide_ext. rewrite elem_of_cons. tauto. }
        now rewrite Hmem.
Qed.

End ModifyFacts.

(** ** The further properties on the concrete collaborators *)

Section MoreExamples.

Import internal.

Local Existing Instance demo.env.

Lemma pair_eta {A B} (x : A * B) : x = (fst x, snd x).
Proof. now destruct x. Defined.

Lemma Program_copacetic_stage_order_witness :
  Program_copacetic (E := demo.env) (demo.config false false) [demo.app; demo.tool]
  = (fst (Program_copacetic (E := demo.env) (demo.config false false)
            [demo.app; demo.tool]), Returned None)
  /\ exists patch push,
       classify (E := demo.env) (demo.config false false) 0 [demo.app; demo.tool] [] []
       = (concat (prescanEvents (demo.config false false)
                    <$> pointers 0 [demo.app; demo.tool]), inr (patch, push))
       /\ ImportOption_Run (Env := demo.env) push = None.
Proof.
  assert (H : Program_copacetic (E := demo.env) (demo.config false false)
                [demo.app; demo.tool]
              = (fst (Program_copacetic (E := demo.env) (demo.config false false)
                        [demo.app; demo.tool]), Returned None))
    by (vm_compute; reflexivity).
  split; [exact H |].
  destruct (Program_copacetic_stage_order (E := demo.env) _ _ _ H)
    as (patch & push & Hc & Himp & _).
  exists patch, push. split; [exact Hc | exact Himp].
Defined.

Lemma cleanup_runs_on_every_exit_witness :
  classify (E := demo.env) (demo.config true false) 0 [demo.app; demo.tool] [] []
  = (fst (classify (E := demo.env) (demo.config true false) 0
            [demo.app; demo.tool] [] []),
     inr ([demo.ptr 0 demo.app], [demo.ptr 1 demo.tool]))
  /\ EvRemoveAll (prescanPath (E := demo.env) (demo.config true false) demo.tool)
     ∈ cleanup (E := demo.env) (demo.config true false)
         (artifactPaths (demo.config true false)
            [demo.ptr 0 demo.app] [demo.ptr 1 demo.tool]).
Proof.
  assert (H : classify (E := demo.env) (demo.config true false) 0
                [demo.app; demo.tool] [] []
              = (fst (classify (E := demo.env) (demo.config true false) 0
                        [demo.app; demo.tool] [] []),
                 inr ([demo.ptr 0 demo.app], [demo.ptr 1 demo.tool])))
    by (vm_compute; reflexivity).
  split; [exact H |].
  destruct (cleanup_runs_on_every_exit (E := demo.env) _ _ _ _ _ H) as (_ & Hrm & _).
  exact (proj1 (Hrm eq_refl 1 demo.tool eq_refl)).
Defined.

Lemma classification_failure_stops_branch_witness :
  classify (E := demo.env) (demo.config true true) 0
    [demo.app; demo.image "unknown" "0.1" None] [] []
  = (fst (classify (E := demo.env) (demo.config true true) 0
            [demo.app; demo.image "unknown" "0.1" None] [] []),
     inl (Err "scan: image not found"))
  /\ exists e,
       Program_copacetic (E := demo.env) (demo.config true true)
         [demo.app; demo.image "unknown" "0.1" None]
       = (fst (classify (E := demo.env) (demo.config true true) 0
                 [demo.app; demo.image "unknown" "0.1" None] [] []),
          Returned (Some e)).
Proof.
  assert (H : classify (E := demo.env) (demo.config true true) 0
                [demo.app; demo.image "unknown" "0.1" None] [] []
              = (fst (classify (E := demo.env) (demo.config true true) 0
                        [demo.app; demo.image "unknown" "0.1" None] [] []),
                 inl (Err "scan: image not found")))
    by (vm_compute; reflexivity).
  split; [exact H |].
  destruct (classification_failure_stops_branch (E := demo.env) _ _ _ _ H)
    as (e & Hp & _).
  exists e. exact Hp.
Defined.

Lemma import_failure_stops_branch_witness :
  classify (E := demo.envImportDown) (demo.config true false) 0
    [demo.app; demo.tool] [] []
  = (fst (classify (E := demo.envImportDown) (demo.config true false) 0
            [demo.app; demo.tool] [] []),
     inr ([demo.ptr 0 demo.app], [demo.ptr 1 demo.tool]))
  /\ ImportOption_Run (Env := demo.envImportDown) [demo.ptr 1 demo.tool]
     = Some "push: connection refused"
  /\ snd (Program_copacetic (E := demo.envImportDown) (demo.config true false)
            [demo.app; demo.tool])
     = @Returned demo.envImportDown (Some "push: connection refused").
Proof.
  assert (H : classify (E := demo.envImportDown) (demo.config true false) 0
                [demo.app; demo.tool] [] []
              = (fst (classify (E := demo.envImportDown) (demo.config true false) 0
                        [demo.app; demo.tool] [] []),
                 inr ([demo.ptr 0 demo.app], [demo.ptr 1 demo.tool])))
    by (vm_compute; reflexivity).
  assert (Hi : ImportOption_Run (Env := demo.envImportDown) [demo.ptr 1 demo.tool]
               = Some "push: connection refused") by reflexivity.
  split; [exact H | split; [exact Hi |]].
  now rewrite (import_failure_stops_branch (E := demo.envImportDown) _ _ _ _ _ _ H Hi).
Defined.

Lemma path_maps_cover_batch_witness :
  classify (E := demo.env) (demo.config false false) 0 [demo.app; demo.tool] [] []
  = (fst (classify (E := demo.env) (demo.config false false) 0
            [demo.app; demo.tool] [] []),
     inr ([demo.ptr 0 demo.app], [demo.ptr 1 demo.tool]))
  /\ size (reportFilePaths
             (artifactPaths (E := demo.env) (demo.config false false)
                [demo.ptr 0 demo.app] [demo.ptr 1 demo.tool])) = 2.
Proof.
  assert (H : classify (E := demo.env) (demo.config false false) 0
                [demo.app; demo.tool] [] []
              = (fst (classify (E := demo.env) (demo.config false false) 0
                        [demo.app; demo.tool] [] []),
                 inr ([demo.ptr 0 demo.app], [demo.ptr 1 demo.tool])))
    by (vm_compute; reflexivity).
  split; [exact H |].
  destruct (path_maps_cover_batch (E := demo.env) _ _ _ _ _ H) as (_ & _ & _ & Hsize).
  exact Hsize.
Defined.

Lemma signing_covers_batch_witness :
  EvSign [demo.ptr 0 demo.app; demo.ptr 1 demo.tool]
  ∈ fst (Program_copacetic (E := demo.env) (demo.configSigning true (Some "secret"))
           [demo.app; demo.tool])
  /\ [demo.ptr 0 demo.app; demo.ptr 1 demo.tool] ≡ₚ pointers 0 [demo.app; demo.tool].
Proof.
  assert (H : EvSign [demo.ptr 0 demo.app; demo.ptr 1 demo.tool]
              ∈ fst (Program_copacetic (E := demo.env)
                       (demo.configSigning true (Some "secret"))
                       [demo.app; demo.tool])).
  { vm_compute. do 10 apply list_elem_of_further. apply list_elem_of_here. }
  split; [exact H |].
  destruct (signing_covers_batch (E := demo.env) _ _ _ H) as (_ & Hperm & _).
  exact Hperm.
Defined.

Lemma signing_without_passphrase_witness :
  Enabled (demo.configSigning true None) = true
  /\ CosignEnabled (Cosign (demo.configSigning true None)) = true
  /\ KeyRefPass (Cosign (demo.configSigning true None)) = None
  /\ snd (Program_images (E := demo.env) (demo.configSigning true None)
            [demo.app; demo.tool]) <> Returned None.
Proof.
  repeat (split; [reflexivity |]).
  exact (proj1 (signing_without_passphrase (E := demo.env)
                  (demo.configSigning true None) [demo.app; demo.tool] []
                  eq_refl eq_refl eq_refl)).
Defined.

Lemma modifyEntry_keeps_others_witness :
  modifyEntry (E := demo.env) demo.refToImage demo.chart demo.mirrors 0 ["image"]
    demo.cell
  = (fst (modifyEntry (E := demo.env) demo.refToImage demo.chart demo.mirrors 0
            ["image"] demo.cell),
     snd (modifyEntry (E := demo.env) demo.refToImage demo.chart demo.mirrors 0
            ["image"] demo.cell))
  /\ 0 < fresh demo.cell
  /\ fresh demo.cell
     <= fresh (fst (modifyEntry (E := demo.env) demo.refToImage demo.chart
                      demo.mirrors 0 ["image"] demo.cell)).
Proof.
  assert (Hi : 0 < fresh demo.cell) by (simpl; lia).
  split; [apply pair_eta | split; [exact Hi |]].
  exact (proj1 (modifyEntry_keeps_others (E := demo.env) demo.refToImage demo.chart
                  demo.mirrors 0 ["image"] demo.cell _ _ (pair_eta _) Hi)).
Defined.

Lemma modifyEntry_excludes_witness :
  Image_String (Env := demo.env) (pointees demo.cell 1) = ("docker.io/tool:2.3", None)
  /\ Images demo.chart = Some demo.images
  /\ anyPrefix "docker.io/tool:2.3" (Exclude demo.images) = true
  /\ 1 < fresh demo.cell
  /\ values (fst (modifyEntry (E := demo.env) demo.refToImage demo.chart demo.mirrors
                    1 ["sidecar.image"] demo.cell)) !! 1 = None.
Proof.
  assert (Hi : 1 < fresh demo.cell) by (simpl; lia).
  split; [reflexivity | split; [reflexivity | split; [reflexivity | split; [exact Hi |]]]].
  exact (modifyEntry_excludes (E := demo.env) demo.refToImage demo.chart demo.mirrors
           1 ["sidecar.image"] demo.cell _ _ "docker.io/tool:2.3" demo.images
           eq_refl eq_refl eq_refl Hi (pair_eta _)).
Defined.

Lemma modifyEntry_empty_refs_witness :
  Image_String (Env := demo.env) (pointees demo.cell 0)
  = ("docker.io/library/app:1.0", None)
  /\ Images demo.chartEmptyRefs = Some demo.imagesEmptyRefs
  /\ 0 < fresh demo.cell
  /\ EmptyString ∈ Exclude demo.imagesEmptyRefs
  /\ Forall (fun rule => From rule = EmptyString) (Modify demo.imagesEmptyRefs)
  /\ Modify demo.imagesEmptyRefs <> []
  /\ values (fst (modifyEntry (E := demo.env) demo.refToImage demo.chartEmptyRefs
                    demo.mirrors 0 ["image"] demo.cell)) !! 0 = None
  /\ fresh (fst (modifyEntry (E := demo.env) demo.refToImage demo.chartEmptyRefs
                   demo.mirrors 0 ["image"] demo.cell)) = fresh demo.cell
  /\ snd (modifyEntry (E := demo.env) demo.refToImage demo.chartEmptyRefs
            demo.mirrors 0 ["image"] demo.cell) = None.
Proof.
  assert (Hi : 0 < fresh demo.cell) by (simpl; lia).
  assert (Hex : EmptyString ∈ Exclude demo.imagesEmptyRefs)
    by apply list_elem_of_here.
  assert (Hall : Forall (fun rule => From rule = EmptyString)
                   (Modify demo.imagesEmptyRefs))
    by (constructor; [reflexivity | constructor]).
  destruct (modifyEntry_empty_refs (E := demo.env) demo.refToImage
              demo.chartEmptyRefs demo.mirrors 0 ["image"] demo.cell _ _
              "docker.io/library/app:1.0" demo.imagesEmptyRefs
              eq_refl eq_refl Hi (pair_eta _)) as [Hgone Hsame].
  destruct (Hsame Hall) as [Hfresh Herr].
  split; [reflexivity | split; [reflexivity | split; [exact Hi |]]].
  split; [exact Hex | split; [exact Hall | split; [discriminate |]]].
  split; [exact (Hgone Hex) | split; [exact Hfresh | exact Herr]].
Defined.

Lemma modifyEntry_rewrites_witness :
  Image_String (Env := demo.env) (pointees demo.cell 0)
  = ("docker.io/library/app:1.0", None)
  /\ Images demo.chart = Some demo.images
  /\ demo.hubRule ∈ Modify demo.images
  /\ From demo.hubRule <> EmptyString
  /\ strings.HasPrefix "docker.io/library/app:1.0" (From demo.hubRule) = true
  /\ 0 < fresh demo.cell
  /\ modifyEntry (E := demo.env) demo.refToImage demo.chart demo.mirrors 0 ["image"]
       demo.cell
     = (fst (modifyEntry (E := demo.env) demo.refToImage demo.chart demo.mirrors 0
               ["image"] demo.cell), None)
  /\ exists j,
       values (fst (modifyEntry (E := demo.env) demo.refToImage demo.chart
                      demo.mirrors 0 ["image"] demo.cell)) !! j = Some ["image"]
       /\ Patch (pointees (fst (modifyEntry (E := demo.env) demo.refToImage demo.chart
                                  demo.mirrors 0 ["image"] demo.cell)) j)
          = Some false.
Proof.
  assert (Hi : 0 < fresh demo.cell) by (simpl; lia).
  assert (Hin : demo.hubRule ∈ Modify demo.images) by apply list_elem_of_here.
  assert (Hne : From demo.hubRule <> EmptyString) by discriminate.
  assert (Hrun : modifyEntry (E := demo.env) demo.refToImage demo.chart demo.mirrors
                   0 ["image"] demo.cell
                 = (fst (modifyEntry (E := demo.env) demo.refToImage demo.chart
                           demo.mirrors 0 ["image"] demo.cell), None))
    by reflexivity.
  split; [reflexivity | split; [reflexivity | split; [exact Hin |]]].
  split; [exact Hne | split; [reflexivity | split; [exact Hi | split; [exact Hrun |]]]].
  destruct (modifyEntry_rewrites (E := demo.env) demo.refToImage demo.chart
              demo.mirrors 0 ["image"] demo.cell _ "docker.io/library/app:1.0"
              demo.images demo.hubRule eq_refl eq_refl Hin Hne eq_refl Hi Hrun)
    as (j & parsed & rest & _ & _ & _ & Hv & _ & _ & _ & _ & _ & Hpatch).
  exists j. split; [exact Hv | exact Hpatch].
Defined.

Lemma modifyEntry_image_witness :
  Image_String (Env := demo.env) (pointees demo.cell 0)
  = ("docker.io/library/app:1.0", None)
  /\ 0 < fresh demo.cell
  /\ modifyEntry (E := demo.env) demo.refToImage demo.chart demo.mirrors 0 ["image"]
       demo.cell
     = (fst (modifyEntry (E := demo.env) demo.refToImage demo.chart demo.mirrors 0
               ["image"] demo.cell), None)
  /\ Patch (pointees (fst (modifyEntry (E := demo.env) demo.refToImage demo.chart
                             demo.mirrors 0 ["image"] demo.cell)) 0) = Some false
  /\ Registry (pointees (fst (modifyEntry (E := demo.env) demo.refToImage demo.chart
                                demo.mirrors 0 ["image"] demo.cell)) 0)
     = "cache.example".
Proof.
  assert (Hi : 0 < fresh demo.cell) by (simpl; lia).
  assert (Hrun : modifyEntry (E := demo.env) demo.refToImage demo.chart demo.mirrors
                   0 ["image"] demo.cell
                 = (fst (modifyEntry (E := demo.env) demo.refToImage demo.chart
                           demo.mirrors 0 ["image"] demo.cell), None))
    by reflexivity.
  split; [reflexivity | split; [exact Hi | split; [exact Hrun |]]].
  destruct (modifyEntry_image (E := demo.env) demo.refToImage demo.chart demo.mirrors
              0 ["image"] demo.cell _ "docker.io/library/app:1.0" eq_refl Hi Hrun)
    as (_ & _ & _ & _ & Hpatch & Hreg).
  split; [exact Hpatch | exact Hreg].
Defined.

Lemma modifyChart_without_rules_witness :
  Images demo.chartNoRules = Some demo.imagesNoRules
  /\ Forall (fun rule => From rule = EmptyString) (Modify demo.imagesNoRules)
  /\ NoDup [1; 0]
  /\ (forall i, i ∈ [1; 0] ->
        snd (Image_String (Env := demo.env) (pointees demo.cell i)) = None)
  /\ exists st',
       modifyChart (E := demo.env) demo.refToImage demo.chartNoRules demo.mirrors
         [1; 0] demo.cell = (st', None)
       /\ fresh st' = fresh demo.cell.
Proof.
  assert (Hnd : NoDup [1; 0]).
  { apply NoDup_cons. split.
    - apply not_elem_of_cons. split; [discriminate | apply not_elem_of_nil].
    - apply NoDup_singleton. }
  assert (Hok : forall i, i ∈ [1; 0] ->
                  snd (Image_String (Env := demo.env) (pointees demo.cell i)) = None).
  { intros i Hi. apply elem_of_cons in Hi as [-> | Hi]; [reflexivity |].
    apply list_elem_of_singleton in Hi as ->. reflexivity. }
  split; [reflexivity | split; [apply Forall_nil_2 | split; [exact Hnd |]]].
  split; [exact Hok |].
  destruct (modifyChart_without_rules (E := demo.env) demo.refToImage
              demo.chartNoRules demo.mirrors demo.imagesNoRules [1; 0]
              eq_refl (Forall_nil_2 _) Hnd demo.cell Hok) as (st' & Hrun & Hf & _).
  exists st'. split; [exact Hrun | exact Hf].
Defined.

End MoreExamples.
